(** * rest-layer-pgsql: query translation and statement generation

    A shallow embedding of the PostgreSQL storage handler for REST Layer.

    - Go strings are byte sequences: [string] (a list of 8-bit [ascii]).
    - Go [int] is 64 bits wide; every integer computed here is a string
      length minus a small constant, so it is written in [Z] and never wraps.
    - A Go function returning [(T, error)] returns [Ok t] or [Err e]
      ([Err e] stands for [return "", e] / [return nil, e]); a run-time
      panic (slice bounds out of range, failed type assertion) is [Panic].
    - The database behind [database/sql] is an explicit state threaded
      through every call of the driver interface.
    - [time.Now()] is a clock handed to the functions that read it. *)

From Stdlib Require Import ZArith String Ascii List Lia Bool DecimalString Permutation.
Import ListNotations.

Set Warnings "-register-all".
Set Implicit Arguments.

Local Open Scope list_scope.
Local Open Scope string_scope.

(** ** Errors and results *)

(** The error values the handler can return: the three sentinels of the
    [resource] package it uses, [sql.ErrNoRows], and any other error of
    [database/sql] or of the [pq] driver, carried with its [Error()] text. *)
Inductive error : Type :=
| ErrNotFound
| ErrConflict
| ErrNotImplemented
| ErrNoRows
| ErrDriver (msg : string).

(** [err.Error()] *)
Definition Error (e : error) : string :=
  match e with
  | ErrNotFound => "Not Found"
  | ErrConflict => "Conflict"
  | ErrNotImplemented => "Not Implemented"
  | ErrNoRows => "sql: no rows in result set"
  | ErrDriver msg => msg
  end.

Inductive result (A : Type) : Type :=
| Ok (a : A)
| Err (e : error)
| Panic.

Arguments Ok {A} a.
Arguments Err {A} e.
Arguments Panic {A}.

Definition bind {A B : Type} (r : result A) (k : A -> result B) : result B :=
  match r with
  | Ok a => k a
  | Err e => Err e
  | Panic => Panic
  end.

Notation "x <- c ;; k" := (bind c (fun x => k))
  (at level 61, c at next level, right associativity).

(** [for _, x := range l { body }] over a slice, with the variables the
    body assigns as the loop state [s]; a [return] or a panic inside the
    body leaves the loop. *)
Definition rangeM {A S : Type} (body : S -> A -> result S)
  : list A -> S -> result S :=
  fix go (l : list A) (s : S) : result S :=
    match l with
    | [] => Ok s
    | x :: l' => s' <- body s x ;; go l' s'
    end.

(** ** Strings *)

Definition len (s : string) : Z := Z.of_nat (String.length s).

(** [s[:hi]]: panics when [hi] is negative or beyond [len(s)]. *)
Definition sliceTo (s : string) (hi : Z) : result string :=
  if ((hi <? 0) || (len s <? hi))%Z then Panic
  else Ok (substring 0 (Z.to_nat hi) s).

(** [strings.Replace(s, old, new, -1)] for a non-empty [old]: every
    non-overlapping occurrence of [old], scanning from the left, becomes
    [new]. [skip] counts the bytes of a replaced occurrence still to pass. *)
Fixpoint replaceFrom (old new : string) (skip : nat) (s : string) : string :=
  match s with
  | EmptyString => EmptyString
  | String c s' =>
      match skip with
      | S k => replaceFrom old new k s'
      | O =>
          if prefix old s
          then new ++ replaceFrom old new (String.length old - 1) s'
          else String c (replaceFrom old new 0 s')
      end
  end.

Definition Replace (s old new : string) : string := replaceFrom old new 0 s.

Arguments Replace : simpl never.

(** [strings.Contains(s, substr)] *)
Fixpoint Contains (s substr : string) : bool :=
  prefix substr s ||
  match s with
  | EmptyString => false
  | String _ s' => Contains s' substr
  end.

(** [fmt.Sprintf("%d", n)] *)
Definition fmtInt (n : Z) : string := NilZero.string_of_int (Z.to_int n).

(** [strings.Join]-like text of a list with a separator between elements. *)
Fixpoint join (sep : string) (l : list string) : string :=
  match l with
  | [] => ""
  | [x] => x
  | x :: l' => x ++ sep ++ join sep l'
  end.

(** ** The query package of REST Layer (types only) *)

Module query.

(** [query.Value] is [interface{}]: a value with its dynamic type. The
    types the encoder switches on are kept apart; [float64] and
    [time.Time] carry the text [fmt] prints for them, and a value of any
    other dynamic type carries its [%v] and its [%s] text. *)
Inductive Value : Type :=
| VInt (n : Z)
| VFloat64 (text : string)
| VBool (b : bool)
| VString (s : string)
| VTime (text : string)
| VNil
| VOther (v s : string).

Inductive Expression : Type :=
| And (t : list Expression)
| Or (t : list Expression)
| In (Field : string) (Values : list Value)
| NotIn (Field : string) (Values : list Value)
| Equal (Field : string) (Value : Value)
| NotEqual (Field : string) (Value : Value)
| GreaterThan (Field : string) (Value : Value)
| GreaterOrEqual (Field : string) (Value : Value)
| LowerThan (Field : string) (Value : Value)
| LowerOrEqual (Field : string) (Value : Value)
| Other.  (* any other implementation of the Expression interface *)

Definition Predicate : Type := list Expression.

Record SortField : Type := { Name : string; Reversed : bool }.

Record Window : Type := { Offset : Z; Limit : Z }.

(** [Sort] is a slice and [Window] a pointer: [None] is [nil]. *)
Record Query : Type :=
  { Predicate_ : Predicate;
    Sort : option (list SortField);
    Window_ : option Window }.

End query.

Import query(Value, VInt, VFloat64, VBool, VString, VTime, VNil, VOther, Expression).

(** [fmt.Sprintf("%v", v)] *)
Definition fmtV (v : Value) : string :=
  match v with
  | VInt n => fmtInt n
  | VFloat64 text => text
  | VBool b => if b then "true" else "false"
  | VString s => s
  | VTime text => text
  | VNil => "<nil>"
  | VOther text _ => text
  end.

(** [fmt.Sprintf("%s", v)] *)
Definition fmtS (v : Value) : string :=
  match v with
  | VInt n => "%!s(int=" ++ fmtInt n ++ ")"
  | VFloat64 text => "%!s(float64=" ++ text ++ ")"
  | VBool b => "%!s(bool=" ++ (if b then "true" else "false") ++ ")"
  | VString s => s
  | VTime text => text
  | VNil => "%!s(<nil>)"
  | VOther _ text => text
  end.

(** ** Query translation *)

(** valueToString converts a Value into a type-specific string *)
Definition valueToString (v : Value) : result string :=
  let str := "" in
  match v with
  | VInt _ => Ok (str ++ fmtV v)
  | VFloat64 _ => Ok (str ++ fmtV v)
  | VBool _ => Ok (str ++ fmtV v)
  | VString _ => Ok (str ++ "'" ++ fmtV v ++ "'")
  | VTime _ => Ok (str ++ "'" ++ fmtV v ++ "'")
  | _ => Ok (str ++ "'" ++ fmtV v ++ "'")
  end.

(** valuesToString combines a list of Values into a single comma separated string *)
Definition valuesToString (v : list Value) : result string :=
  str <- rangeM (fun str v => s <- valueToString v ;; Ok (str ++ s ++ ",")) v "" ;;
  sliceTo str (len str - 1).

(** The body of the [switch] of translatePredicate for one expression:
    [str] is the text accumulated so far, the result is the new [str]. *)
Fixpoint translateExpression (str : string) (exp : Expression) {struct exp}
  : result string :=
  let translatePredicate := fun p => rangeM translateExpression p "" in
  match exp with
  | query.And t =>
      s <- rangeM (fun s subExp =>
                     sb <- translatePredicate [subExp] ;;
                     Ok (s ++ sb ++ " AND ")) t "" ;;
      s' <- sliceTo s (len s - 5) ;;
      Ok (str ++ "(" ++ s' ++ ")")
  | query.Or t =>
      s <- rangeM (fun s subExp =>
                     sb <- translatePredicate [subExp] ;;
                     Ok (s ++ sb ++ " OR ")) t "" ;;
      s' <- sliceTo s (len s - 4) ;;
      Ok (str ++ "(" ++ s' ++ ")")
  | query.In Field Values =>
      match valuesToString Values with
      | Ok v => Ok (str ++ Field ++ " IN (" ++ v ++ ")")
      | Err _ => Err ErrNotImplemented
      | Panic => Panic
      end
  | query.NotIn Field Values =>
      match valuesToString Values with
      | Ok v => Ok (str ++ Field ++ " NOT IN (" ++ v ++ ")")
      | Err _ => Err ErrNotImplemented
      | Panic => Panic
      end
  | query.Equal Field Value =>
      match valueToString Value with
      | Ok v =>
          match Value with
          | VString _ =>
              let v := Replace v "*" "%" in
              let v := Replace v "_" "\_" in
              Ok (str ++ Field ++ " LIKE " ++ v ++ " ESCAPE '\'")
          | _ => Ok (str ++ Field ++ " IS " ++ v)
          end
      | Err _ => Err ErrNotImplemented
      | Panic => Panic
      end
  | query.NotEqual Field Value =>
      match valueToString Value with
      | Ok v =>
          match Value with
          | VString _ =>
              let v := Replace v "*" "%" in
              let v := Replace v "_" "\_" in
              Ok (str ++ Field ++ " NOT LIKE " ++ v ++ " ESCAPE '\'")
          | _ => Ok (str ++ Field ++ " IS NOT " ++ v)
          end
      | Err _ => Err ErrNotImplemented
      | Panic => Panic
      end
  | query.GreaterThan Field Value =>
      match valueToString Value with
      | Ok v => Ok (str ++ Field ++ " > " ++ v)
      | Err _ => Err ErrNotImplemented
      | Panic => Panic
      end
  | query.GreaterOrEqual Field Value =>
      match valueToString Value with
      | Ok v => Ok (str ++ Field ++ " >= " ++ v)
      | Err _ => Err ErrNotImplemented
      | Panic => Panic
      end
  | query.LowerThan Field Value =>
      match valueToString Value with
      | Ok v => Ok (str ++ Field ++ " < " ++ v)
      | Err _ => Err ErrNotImplemented
      | Panic => Panic
      end
  | query.LowerOrEqual Field Value =>
      match valueToString Value with
      | Ok v => Ok (str ++ Field ++ " <= " ++ v)
      | Err _ => Err ErrNotImplemented
      | Panic => Panic
      end
  | query.Other => Err ErrNotImplemented
  end.

Definition translatePredicate (p : query.Predicate) : result string :=
  rangeM translateExpression p "".

(** getQuery transform a query into an SQL compliant query *)
Definition getQuery (q : query.Query) : result string :=
  translatePredicate (query.Predicate_ q).

(** getSort transform a query.Query into an SQL compliant SORT.
    If the sort list is empty, fallback to id. *)
Definition getSort (q : query.Query) : result string :=
  let l := match query.Sort q with Some l => l | None => [] end in
  if (List.length l =? 0)%nat then Ok "id"
  else
    str <- rangeM (fun str sort =>
                     let str := if query.Reversed sort
                                then str ++ query.Name sort ++ " DESC"
                                else str ++ query.Name sort in
                     Ok (str ++ ",")) l "" ;;
    sliceTo str (len str - 1).

(** ** Go maps, items and the database driver *)

(** [map[string]interface{}], listed in the order a [range] loop visits
    it (Go leaves that order unspecified: every order is a list). *)
Definition Map : Type := list (string * Value).

(** [m[k]]: the zero value [nil] when the key is absent. *)
Fixpoint mapGet (m : Map) (k : string) : Value :=
  match m with
  | [] => VNil
  | (k', v) :: m' => if (k' =? k) then v else mapGet m' k
  end.

(** [m[k] = v] *)
Fixpoint mapSet (k : string) (v : Value) (m : Map) : Map :=
  match m with
  | [] => [(k, v)]
  | (k', v') :: m' => if (k' =? k) then (k, v) :: m' else (k', v') :: mapSet k v m'
  end.

(** [delete(m, k)] *)
Definition mapDelete (k : string) (m : Map) : Map :=
  filter (fun kv => negb (fst kv =? k)) m.

(** [time.Now().Format(time.RFC3339)]: [now j] is the text read during
    iteration [j] of the loop that reads the clock. A [time.Time] is kept
    as its RFC3339 text. *)
Definition Clock : Type := nat -> string.

Module resource.

Record Item : Type :=
  { ID : Value; ETag : string; Updated : string; Payload : Map }.

Record ItemList : Type :=
  { Offset : Z; Total : Z; Items : list Item }.

End resource.

(** Handler contains the session and table information for a SQL DB. The
    session is the database state the operations thread. *)
Record Handler : Type := { tableName : string }.

(** A statement runs on the pool ([h.session.X]) or on an open
    transaction ([txPtr.X]). *)
Inductive Via : Type := Session | Tx.

(** What [rows.Scan] stores for one column. *)
Inductive Cell : Type :=
| CBytes (b : string)
| CValue (v : Value).

(** [*sql.Rows]: the column names, the outcome of [Scan] for each row
    [Next] yields (one cell per column), and [rows.Err()]. *)
Record Rows : Type :=
  { Columns : result (list string);
    Next : list (result (list Cell));
    RowsErr : option error }.

(** The part of [database/sql] the handler calls, over a database state. *)
Class Driver (DB : Type) : Type :=
  { Begin : DB -> DB * option error;
    Commit : DB -> DB * option error;
    Rollback : DB -> DB;
    Close : DB -> DB;
    (* [Exec]: an error, or a result with its [RowsAffected()] *)
    Exec : Via -> string -> DB -> DB * result (result Z);
    Prepare : string -> DB -> DB * option error;
    Query : string -> DB -> DB * result Rows;
    (* [QueryRow(q, args...).Scan(&s)] into a string / an int *)
    QueryRowScanString : Via -> string -> list Value -> DB -> DB * result string;
    QueryRowScanInt : Via -> string -> list Value -> DB -> DB * result Z }.

(** [if err != nil { return "", resource.ErrNotImplemented }] *)
Definition orNotImplemented {A : Type} (r : result A) : result A :=
  match r with
  | Err _ => Err ErrNotImplemented
  | _ => r
  end.

(** [etag != origEtag] of a string against an [interface{}] *)
Definition neqIface (etag : string) (origEtag : Value) : bool :=
  match origEtag with
  | VString s => negb (etag =? s)
  | _ => true
  end.

(** [fmt.Sprintln(err)] *)
Definition Sprintln (e : error) : string :=
  Error e ++ String (ascii_of_nat 10) "".

(** ** The storage handler (pgsql.go) *)

Module pgsql.

Import resource.

(** getSelect returns a SQL SELECT statement that represents the Lookup data *)
Definition getSelect (h : Handler) (q : query.Query) : result string :=
  let str := "SELECT * FROM " ++ tableName h in
  qry <- getQuery q ;;
  let str := if (qry =? "") then str else str ++ " WHERE " ++ qry in
  str <- match query.Sort q with
         | Some _ => sort <- getSort q ;; Ok (str ++ " ORDER BY " ++ sort)
         | None => Ok str
         end ;;
  let str :=
    match query.Window_ q with
    | Some w =>
        if (query.Limit w >=? 0)%Z
        then (str ++ " LIMIT " ++ fmtInt (query.Limit w))
               ++ " OFFSET " ++ fmtInt (query.Offset w)
        else str
    | None => str
    end in
  Ok (str ++ ";").

(** getDelete returns a SQL DELETE statement that represents the Lookup data *)
Definition getDelete (h : Handler) (q : query.Query) : result string :=
  let str := "DELETE FROM " ++ tableName h ++ " WHERE " in
  qry <- getQuery q ;;
  Ok (str ++ qry ++ ";").

(** getInsert returns a SQL INSERT statement constructed from the Item data.
    The loop state is [(a, z, j)], [j] counting the iterations. *)
Definition getInsert (now : Clock) (h : Handler) (i : Item) : result string :=
  let a := "INSERT INTO " ++ tableName h ++ "(etag," in
  let z := "VALUES(" ++ ("'" ++ ETag i ++ "'") ++ "," in
  st <- rangeM (fun (st : string * string * nat) (kv : string * Value) =>
                  let '(a, z, j) := st in
                  let (k, v) := kv in
                  let a := a ++ k ++ "," in
                  val <- orNotImplemented (valueToString v) ;;
                  let val := if (k =? "created") || (k =? "updated")
                             then "'" ++ now j ++ "'"
                             else val in
                  Ok (a, z ++ val ++ ",", S j))
               (Payload i) (a, z, O) ;;
  let '(a, z, _) := st in
  a' <- sliceTo a (len a - 1) ;;
  z' <- sliceTo z (len z - 1) ;;
  Ok ((a' ++ ")") ++ " " ++ (z' ++ ")") ++ ";").

(** getUpdate returns a SQL INSERT statement constructed from the Item data *)
Definition getUpdate (now : Clock) (h : Handler) (i o : Item) : result string :=
  id <- orNotImplemented (valueToString (ID o)) ;;
  let a := "UPDATE " ++ tableName h ++ " SET etag=" ++ ("'" ++ ETag i ++ "'") ++ "," in
  let z := "WHERE id=" ++ id ++ " AND etag=" ++ ("'" ++ ETag o ++ "'") ++ ";" in
  st <- rangeM (fun (st : string * nat) (kv : string * Value) =>
                  let (a, j) := st in
                  let (k, v) := kv in
                  if negb (k =? "id") then
                    val <- orNotImplemented (valueToString v) ;;
                    let val := if (k =? "updated")
                               then "'" ++ now j ++ "'"
                               else val in
                    Ok (a ++ (k ++ "=" ++ val ++ ","), S j)
                  else Ok (a, S j))
               (Payload i) (a, O) ;;
  let (a, _) := st in
  a <- sliceTo a (len a - 1) ;;
  Ok (a ++ " " ++ z).

(** newItem creates resource.Item from a SQL result row. [now] is the
    clock text; parsing back the text just formatted does not fail. The
    type assertion [etag.(string)] panics on any other dynamic type. *)
Definition newItem (now : string) (row : Map) : result Item :=
  let id := mapGet row "id" in
  let etag := mapGet row "etag" in
  let row := mapDelete "etag" row in
  let row := mapDelete "updated" row in
  let tu := now in
  match etag with
  | VString etag => Ok {| ID := id; ETag := etag; Updated := tu; Payload := row |}
  | _ => Panic
  end.

(** newItemList creates a list of resource.Item from a SQL result row slice *)
Definition newItemList (now : Clock) (rows : list Map) (offset : Z)
  : result ItemList :=
  st <- rangeM (fun (st : list Item * nat) (r : Map) =>
                  let (items, i) := st in
                  item <- newItem (now i) r ;;
                  Ok (items ++ [item], S i))%list
               rows ([], O) ;;
  Ok {| Offset := offset; Total := Z.of_nat (List.length rows); Items := fst st |}.

(** The raw row of one [Scan]: byte arrays become strings, and each value
    is stored under its column name. *)
Definition rowMapOf (cols : list string) (rowVals : list Cell) : Map :=
  fold_left (fun rowMap (cv : string * Cell) =>
               let v := match snd cv with
                        | CBytes b => VString b
                        | CValue v => v
                        end in
               mapSet (fst cv) v rowMap)
            (combine cols rowVals) [].

Section Operations.

Context {DB : Type} {driver : Driver DB}.

(** Find is the SELECT query in normal SQL life *)
Definition Find (now : Clock) (h : Handler) (q : query.Query) (db : DB)
  : DB * result ItemList :=
  match getSelect h q with
  | Err e => (db, Err e)
  | Panic => (db, Panic)
  | Ok qry =>
      let (db, r) := Query qry db in
      match r with
      | Err e => (db, Err e)
      | Panic => (db, Panic)
      | Ok rows =>
          (db,
           cols <- Columns rows ;;
           raw <- rangeM (fun raw scan =>
                            rowVals <- scan ;;
                            Ok (raw ++ [rowMapOf cols rowVals])%list)
                         (Next rows) [] ;;
           match RowsErr rows with
           | Some e => Err e
           | None =>
               let offset := match query.Window_ q with
                             | Some w => query.Offset w
                             | None => 0%Z
                             end in
               newItemList now raw offset
           end)
      end
  end.

(** The loop of Insert over the items still to insert; [n] is the index
    of the first of them. A failure rolls the transaction back. *)
Fixpoint insertLoop (now : nat -> Clock) (h : Handler) (n : nat)
         (items : list Item) (db : DB) : DB * result unit :=
  match items with
  | [] => (db, Ok tt)
  | i :: items' =>
      match getInsert (now n) h i with
      | Err e => (Rollback db, Err e)
      | Panic => (db, Panic)
      | Ok s =>
          let (db, r) := Exec Session s db in
          match r with
          | Err e => (Rollback db, Err e)
          | Panic => (db, Panic)
          | Ok _ => insertLoop now h (S n) items' db
          end
      end
  end.

(** Insert stores new items in the backend store. If any of the items
    already exist, no item should be inserted and a resource.ErrConflict
    must be returned. The insertion of the items is performed atomically. *)
Definition Insert (now : nat -> Clock) (h : Handler) (items : list Item) (db : DB)
  : DB * result unit :=
  let (db, err) := Begin db in
  match err with
  | Some e => (db, Err e)
  | None =>
      let (db, r) := insertLoop now h O items db in
      match r with
      | Ok _ => let (db, _) := Commit db in (db, Ok tt)
      | _ => (db, r)
      end
  end.

Definition compareEtags (h : Handler) (id origEtag : Value) (db : DB)
  : DB * result unit :=
  (* query for record with the same id, and return ErrNotFound if we don't find one. *)
  let (db, r) :=
    QueryRowScanString Session
      ("SELECT etag FROM " ++ tableName h ++ " WHERE id='" ++ fmtV id ++ "'") [] db in
  match r with
  | Err e => (db, Err e)
  | Panic => (db, Panic)
  | Ok etag =>
      (* compare the etags to ensure that someone else hasn't scooped us. *)
      if neqIface etag origEtag then (db, Err ErrConflict) else (db, Ok tt)
  end.

(** Update replaces an item in the backend store with a new version. If
    the original item is not found, a resource.ErrNotFound is returned.
    If the etags don't match, a resource.ErrConflict is returned. *)
Definition Update (now : Clock) (h : Handler) (item original : Item) (db : DB)
  : DB * result unit :=
  let (db, err) := Begin db in
  match err with
  | Some e => (db, Err e)
  | None =>
      let (db, r) := compareEtags h (ID original) (VString (ETag original)) db in
      match r with
      | Err e => (Rollback db, Err e)
      | Panic => (db, Panic)
      | Ok _ =>
          match getUpdate now h item original with
          | Err e => (Rollback db, Err e)
          | Panic => (db, Panic)
          | Ok s =>
              let (db, r) := Exec Session s db in
              match r with
              | Err e => (Rollback db, Err e)
              | Panic => (db, Panic)
              | Ok _ => let (db, _) := Commit db in (db, Ok tt)
              end
          end
      end
  end.

(** Delete deletes the provided item by its ID. The Etag of the item
    stored in the backend store must match the Etag of the provided item
    or a resource.ErrConflict must be returned. If the provided item were
    not present in the backend store, a resource.ErrNotFound must be
    returned. *)
Definition Delete (h : Handler) (item : Item) (db : DB) : DB * result unit :=
  let (db, err) := Begin db in
  match err with
  | Some e => (db, Err e)
  | None =>
      let (db, r) := compareEtags h (ID item) (VString (ETag item)) db in
      match r with
      | Err e => (Rollback db, Err e)
      | Panic => (db, Panic)
      | Ok _ =>
          let s := "DELETE FROM " ++ tableName h
                     ++ " WHERE id = '" ++ fmtS (ID item) ++ "'" in
          let (db, err) := Prepare s db in
          match err with
          | Some e => (Rollback db, Err e)
          | None =>
              let (db, r) := Exec Session s db in
              match r with
              | Err e => (Rollback db, Err e)
              | Panic => (db, Panic)
              | Ok _ => let (db, _) := Commit db in (db, Ok tt)
              end
          end
      end
  end.

(** Clear removes all items matching the lookup and returns the number
    of items removed as the first value. [Err e] is [(-1, e)]. *)
Definition Clear (h : Handler) (q : query.Query) (db : DB) : DB * result Z :=
  match getDelete h q with
  | Err e => (db, Err e)
  | Panic => (db, Panic)
  | Ok s =>
      let (db, r) := Exec Session s db in
      match r with
      | Err e => (db, Err e)
      | Panic => (db, Panic)
      | Ok (Ok ra) => (db, Ok ra)
      | Ok _ => (db, Ok (-1)%Z)
      end
  end.

End Operations.

End pgsql.

(** ** The revision of the handler that inserts with RETURNING id *)

Module pgsql2.

Import resource.

(** sqlItem is a bson representation of a resource.Item *)
Record sqlItem : Type :=
  { sID : Value; sETag : string; sUpdated : string; sPayload : Map }.

(** newsqlItem converts a resource.Item into a sqlItem *)
Definition newSQLItem (i : Item) : sqlItem :=
  (* Filter out id from the payload so we don't store it at all *)
  let p := fold_left (fun p (kv : string * Value) =>
                        let (k, v) := kv in
                        if negb (k =? "id") then mapSet k v p else p)
                     (Payload i) [] in
  {| sID := ID i; sETag := ETag i; sUpdated := Updated i; sPayload := p |}.

(** The statement insertItems prepares for one item. *)
Definition insertStatement (h : Handler) (i : sqlItem) : result string :=
  let statement := "INSERT INTO " ++ tableName h in
  let columns := "(etag, " in
  let rows := "VALUES('" ++ sETag i ++ "', " in
  st <- rangeM (fun (st : string * string) (kv : string * Value) =>
                  let (columns, rows) := st in
                  let (key, value) := kv in
                  let columns := columns ++ (key ++ ", ") in
                  v <- valueToString value ;;
                  Ok (columns, rows ++ (v ++ ", ")))
               (sPayload i) (columns, rows) ;;
  let (cString, rString) := st in
  c <- sliceTo cString (len cString - 2) ;;
  let fColumns := c ++ ")" in
  r <- sliceTo rString (len rString - 2) ;;
  let fRows := r ++ ") RETURNING id" in
  Ok ((statement ++ fColumns) ++ fRows).

Section Operations.

Context {DB : Type} {driver : Driver DB}.

(** insertItems inserts statements in Bulk. Each iteration defers
    [h.session.Close()], which runs when the function returns. *)
Fixpoint insertItems (h : Handler) (items : list sqlItem) (db : DB)
  : DB * result unit :=
  match items with
  | [] => (db, Ok tt)
  | i :: items' =>
      let (db, err) := Begin db in
      match err with
      | Some e => (db, Err e)
      | None =>
          let (db, r) :=
            match insertStatement h i with
            | Err e => (db, Err e)
            | Panic => (db, Panic)
            | Ok query =>
                let (db, r) := QueryRowScanInt Tx query [] db in
                match r with
                | Err err =>
                    (* now we check if the error is because of duplicate key *)
                    let errorString := Sprintln err in
                    if Contains errorString
                         "pq: duplicate key value violates unique constraint"
                    then (Rollback db, Err ErrConflict)
                    else (Rollback db, Err err)
                | Panic => (db, Panic)
                | Ok _ =>
                    let (db, err) := Commit db in
                    match err with
                    | Some e => (db, Err e)
                    | None => insertItems h items' db
                    end
                end
            end in
          (Close db, r)
      end
  end.

(** Insert stores new items in the backend store. [ctxErr] is
    [ctx.Err()]. *)
Definition Insert (ctxErr : option error) (h : Handler) (items : list Item)
           (db : DB) : DB * result unit :=
  let pItems := map newSQLItem items in
  let (db, r) := insertItems h pItems db in
  match r with
  | Ok _ =>
      match ctxErr with
      | Some e => (db, Err e)
      | None => (db, r)
      end
  | _ => (db, r)
  end.

Definition compareEtags (h : Handler) (id origEtag : Value) (db : DB)
  : DB * result unit :=
  (* query for record with the same id, and return ErrNotFound if we don't find one. *)
  let (db, err) := Begin db in
  match err with
  | Some e => (db, Err e)
  | None =>
      (* the outcome of Scan is dropped: [etag] keeps its zero value
         unless a row was scanned *)
      let (db, r) :=
        QueryRowScanString Tx "SELECT etag FROM $1 WHERE id='$2'"
                           [VString (tableName h); id] db in
      let etag := match r with Ok etag => etag | _ => "" end in
      let (db, err) := Commit db in
      match err with
      | Some e => (Rollback db, Err e)
      | None =>
          (* compare the etags to ensure that someone else hasn't scooped us. *)
          if neqIface etag origEtag then (db, Err ErrConflict) else (db, Ok tt)
      end
  end.

(** Update replaces an item in the backend store with a new version. *)
Definition Update (now : Clock) (h : Handler) (item original : Item) (db : DB)
  : DB * result unit :=
  let (db, err) := Begin db in
  match err with
  | Some e => (db, Err e)
  | None =>
      let (db, r) := compareEtags h (ID original) (VString (ETag original)) db in
      match r with
      | Err e => (Rollback db, Err e)
      | Panic => (db, Panic)
      | Ok _ =>
          match pgsql.getUpdate now h item original with
          | Err e => (Rollback db, Err e)
          | Panic => (db, Panic)
          | Ok s =>
              let (db, r) := Exec Session s db in
              match r with
              | Err e => (Rollback db, Err e)
              | Panic => (db, Panic)
              | Ok _ => let (db, _) := Commit db in (db, Ok tt)
              end
          end
      end
  end.

(** Delete deletes the provided item by its ID. *)
Definition Delete (h : Handler) (item : Item) (db : DB) : DB * result unit :=
  let (db, err) := Begin db in
  match err with
  | Some e => (db, Err e)
  | None =>
      let (db, r) := compareEtags h (ID item) (VString (ETag item)) db in
      match r with
      | Err e => (Rollback db, Err e)
      | Panic => (db, Panic)
      | Ok _ =>
          let s := "DELETE FROM " ++ tableName h
                     ++ " WHERE id = '" ++ fmtS (ID item) ++ "'" in
          let (db, err) := Prepare s db in
          match err with
          | Some e => (Rollback db, Err e)
          | None =>
              let (db, r) := Exec Session s db in
              match r with
              | Err e => (Rollback db, Err e)
              | Panic => (db, Panic)
              | Ok _ => let (db, _) := Commit db in (db, Ok tt)
              end
          end
      end
  end.

End Operations.

End pgsql2.

(** ** The revision of the handler that reads the window unguarded *)

Module pgsql1.

(** getSelect returns a SQL SELECT statement that represents the Lookup
    data. [q.Window] is dereferenced as it is: a nil pointer panics. *)
Definition getSelect (h : Handler) (q : query.Query) : result string :=
  let str := "SELECT * FROM " ++ tableName h in
  qry <- getQuery q ;;
  let str := if (qry =? "") then str else str ++ " WHERE " ++ qry in
  str <- match query.Sort q with
         | Some _ => sort <- getSort q ;; Ok (str ++ " ORDER BY " ++ sort)
         | None => Ok str
         end ;;
  str <- match query.Window_ q with
         | None => Panic
         | Some w =>
             if (query.Limit w >=? 0)%Z
             then Ok ((str ++ " LIMIT " ++ fmtInt (query.Limit w))
                        ++ " OFFSET " ++ fmtInt (query.Offset w))
             else Ok str
         end ;;
  Ok (str ++ ";").

End pgsql1.

(** ** Concrete databases *)

(** A database whose table holds no row: every single-row query reports
    [sql.ErrNoRows], every statement succeeds and affects no row. The state
    counts the calls made. *)
#[local] Instance emptyTable : Driver nat :=
  {| Begin := fun db => (S db, None);
     Commit := fun db => (S db, None);
     Rollback := fun db => S db;
     Close := fun db => S db;
     Exec := fun _ _ db => (S db, Ok (Ok 0%Z));
     Prepare := fun _ db => (S db, None);
     Query := fun _ db =>
       (S db, Ok {| Columns := Ok ["id"; "etag"]; Next := []; RowsErr := None |});
     QueryRowScanString := fun _ _ _ db => (S db, Err ErrNoRows);
     QueryRowScanInt := fun _ _ _ db => (S db, Err ErrNoRows) |}.

(** The text of the [pq] driver for a violated unique constraint. *)
Definition duplicateKey : error :=
  let quote := String (ascii_of_nat 34) "" in
  ErrDriver ("pq: duplicate key value violates unique constraint "
               ++ quote ++ "users_pkey" ++ quote).

(** A database whose table already holds every key: each INSERT reports
    the duplicate key. *)
#[local] Instance occupiedTable : Driver nat :=
  {| Begin := fun db => (S db, None);
     Commit := fun db => (S db, None);
     Rollback := fun db => S db;
     Close := fun db => S db;
     Exec := fun _ _ db => (S db, Err duplicateKey);
     Prepare := fun _ db => (S db, None);
     Query := fun _ db =>
       (S db, Ok {| Columns := Ok ["id"; "etag"]; Next := []; RowsErr := None |});
     QueryRowScanString := fun _ _ _ db => (S db, Ok "e1");
     QueryRowScanInt := fun _ _ _ db => (S db, Err duplicateKey) |}.

(** A database that answers every SELECT with the same page of two rows. *)
#[local] Instance pagedTable : Driver nat :=
  {| Begin := fun db => (S db, None);
     Commit := fun db => (S db, None);
     Rollback := fun db => S db;
     Close := fun db => S db;
     Exec := fun _ _ db => (S db, Ok (Ok 0%Z));
     Prepare := fun _ db => (S db, None);
     Query := fun _ db =>
       (S db, Ok {| Columns := Ok ["id"; "etag"; "name"];
                    Next := [Ok [CBytes "u11"; CBytes "e11"; CBytes "kim"];
                             Ok [CBytes "u12"; CBytes "e12"; CBytes "lee"]];
                    RowsErr := None |});
     QueryRowScanString := fun _ _ _ db => (S db, Ok "e11");
     QueryRowScanInt := fun _ _ _ db => (S db, Ok 1%Z) |}.

(** ** A database that records the calls it receives *)

(** One call of the driver interface. *)
Inductive Call : Type :=
| CallBegin
| CallCommit
| CallRollback
| CallClose
| CallExec (via : Via) (stmt : string)
| CallPrepare (stmt : string)
| CallQuery (stmt : string)
| CallQueryRowString (via : Via) (stmt : string) (args : list Value)
| CallQueryRowInt (via : Via) (stmt : string) (args : list Value).

(** What a database answers to a call, given the calls made before it. *)
Record Answers : Type :=
  { ansBegin : list Call -> option error;
    ansCommit : list Call -> option error;
    ansExec : list Call -> Via -> string -> result (result Z);
    ansPrepare : list Call -> string -> option error;
    ansQuery : list Call -> string -> result Rows;
    ansRowString : list Call -> Via -> string -> list Value -> result string;
    ansRowInt : list Call -> Via -> string -> list Value -> result Z }.

(** The driver whose state is the list of the calls made so far, oldest
    first, and whose answers are those of [a]. *)
Definition recording (a : Answers) : Driver (list Call) :=
  {| Begin := fun t => (t ++ [CallBegin], ansBegin a t)%list;
     Commit := fun t => (t ++ [CallCommit], ansCommit a t)%list;
     Rollback := fun t => (t ++ [CallRollback])%list;
     Close := fun t => (t ++ [CallClose])%list;
     Exec := fun via stmt t => (t ++ [CallExec via stmt], ansExec a t via stmt)%list;
     Prepare := fun stmt t => (t ++ [CallPrepare stmt], ansPrepare a t stmt)%list;
     Query := fun stmt t => (t ++ [CallQuery stmt], ansQuery a t stmt)%list;
     QueryRowScanString := fun via stmt args t =>
       (t ++ [CallQueryRowString via stmt args], ansRowString a t via stmt args)%list;
     QueryRowScanInt := fun via stmt args t =>
       (t ++ [CallQueryRowInt via stmt args], ansRowInt a t via stmt args)%list |}.

(** A database that accepts everything and holds one row with etag e1. *)
Definition agreeable : Answers :=
  {| ansBegin := fun _ => None;
     ansCommit := fun _ => None;
     ansExec := fun _ _ _ => Ok (Ok 1%Z);
     ansPrepare := fun _ _ => None;
     ansQuery := fun _ _ =>
       Ok {| Columns := Ok ["id"; "etag"]; Next := []; RowsErr := None |};
     ansRowString := fun _ _ _ _ => Ok "e1";
     ansRowInt := fun _ _ _ _ => Ok 1%Z |}.

(** A database that accepts the first INSERT and reports a duplicate key
    for every later one. *)
Definition secondFails : Answers :=
  {| ansBegin := fun _ => None;
     ansCommit := fun _ => None;
     ansExec := fun t _ _ =>
       if existsb (fun c => match c with CallExec _ _ => true | _ => false end) t
       then Err duplicateKey else Ok (Ok 1%Z);
     ansPrepare := fun _ _ => None;
     ansQuery := fun _ _ =>
       Ok {| Columns := Ok ["id"; "etag"]; Next := []; RowsErr := None |};
     ansRowString := fun _ _ _ _ => Ok "e1";
     ansRowInt := fun t _ _ _ =>
       if existsb (fun c => match c with CallQueryRowInt _ _ _ => true | _ => false end) t
       then Err duplicateKey else Ok 1%Z |}.

(** ** Concrete inputs *)

(** A clock that reads noon at every tick. *)
Definition noon : Clock := fun _ => "2018-02-27T12:00:00Z".

Definition forgedItem : resource.Item :=
  {| resource.ID := VString "u1"; resource.ETag := "e2";
     resource.Updated := "2018-02-27T12:00:00Z";
     resource.Payload := [("created", VString "1999-01-01T00:00:00Z");
                          ("name", VString "bob");
                          ("updated", VString "1999-01-01T00:00:00Z")] |}.

Definition storedItem : resource.Item :=
  {| resource.ID := VString "u1"; resource.ETag := "e1";
     resource.Updated := "2018-02-26T12:00:00Z";
     resource.Payload := [] |}.

Definition itemWithId : resource.Item :=
  {| resource.ID := VString "u1"; resource.ETag := "e1";
     resource.Updated := "2018-02-27T12:00:00Z";
     resource.Payload := [("id", VString "u1"); ("name", VString "bob")] |}.

Definition secondPage : query.Query :=
  {| query.Predicate_ := [];
     query.Sort := None;
     query.Window_ := Some {| query.Offset := 10; query.Limit := 2 |} |}.

(** ** Vocabulary of the statements *)

(** The outcome of a translation that returns: a text, or the error for a
    node the translator has no case for. *)
Definition returns (r : result string) : Prop :=
  (exists s, r = Ok s) \/ r = Err ErrNotImplemented.


(** The children of a group, each translated on its own, in order. *)
Fixpoint translateEach (t : list Expression) : result (list string) :=
  match t with
  | [] => Ok []
  | subExp :: t' =>
      sb <- translatePredicate [subExp] ;;
      rest <- translateEach t' ;;
      Ok (sb :: rest)
  end.

(** Every element followed by [sep], concatenated. *)
Fixpoint suffixed (sep : string) (l : list string) : string :=
  match l with
  | [] => ""
  | x :: l' => (x ++ sep) ++ suffixed sep l'
  end.

(** The ORDER BY clause of getSelect: present when [Sort] is not nil. *)
Definition orderClause (q : query.Query) : result string :=
  match query.Sort q with
  | Some _ => sort <- getSort q ;; Ok (" ORDER BY " ++ sort)
  | None => Ok ""
  end.

(** The LIMIT / OFFSET clause of getSelect: present for a window with a
    limit that is not negative. *)
Definition windowClause (q : query.Query) : string :=
  match query.Window_ q with
  | Some w =>
      if (query.Limit w >=? 0)%Z
      then " LIMIT " ++ fmtInt (query.Limit w) ++ " OFFSET " ++ fmtInt (query.Offset w)
      else ""
  | None => ""
  end.

(** A text with each byte replaced by the text [f] gives for it. *)
Fixpoint mapChars (f : ascii -> string) (s : string) : string :=
  match s with
  | EmptyString => EmptyString
  | String c s' => f c ++ mapChars f s'
  end.

(** The LIKE pattern of a text: [*] becomes [%], [_] becomes [\_], every
    other byte stays. *)
Definition likePattern (s : string) : string :=
  mapChars (fun c => if Ascii.eqb c "*" then "%"
                     else if Ascii.eqb c "_" then "\_"
                     else String c "") s.

(** The dynamic type is [string]. *)
Definition isString (v : Value) : bool :=
  match v with
  | VString _ => true
  | _ => false
  end.

(** The dynamic type is one the encoder has a case for. *)
Definition supported (v : Value) : bool :=
  match v with
  | VInt _ | VFloat64 _ | VBool _ | VString _ | VTime _ => true
  | _ => false
  end.

(** The literal the encoder writes for a value. *)
Definition literal (v : Value) : string :=
  match v with
  | VInt _ | VFloat64 _ | VBool _ => fmtV v
  | _ => "'" ++ fmtV v ++ "'"
  end.

(** A text between single quotes. *)
Definition quoted (s : string) : string := "'" ++ s ++ "'".

(** The value getInsert writes for the payload entry it visits at
    iteration [j]. *)
Definition insertValue (now : Clock) (j : nat) (kv : string * Value) : string :=
  if (fst kv =? "created") || (fst kv =? "updated")
  then quoted (now j)
  else literal (snd kv).

Fixpoint insertValues (now : Clock) (j : nat) (p : Map) : list string :=
  match p with
  | [] => []
  | kv :: p' => insertValue now j kv :: insertValues now (S j) p'
  end.

(** The assignments getUpdate writes for a payload, [j] being the
    iteration at which the first entry is visited. *)
Fixpoint updateAssignments (now : Clock) (j : nat) (p : Map) : list string :=
  match p with
  | [] => []
  | (k, v) :: p' =>
      if negb (k =? "id")
      then (k ++ "=" ++ (if (k =? "updated") then quoted (now j) else literal v))
             :: updateAssignments now (S j) p'
      else updateAssignments now (S j) p'
  end.

(** An INSERT statement of getInsert with the given columns and values. *)
Definition insertText (table : string) (columns values : list string) : string :=
  "INSERT INTO " ++ table ++ "(" ++ join "," columns ++ ")"
    ++ " " ++ "VALUES(" ++ join "," values ++ ")" ++ ";".

(** An UPDATE statement of getUpdate with the given assignments. *)
Definition updateText (table : string) (assignments : list string) (id etag : string)
  : string :=
  "UPDATE " ++ table ++ " SET " ++ join "," assignments
    ++ " " ++ "WHERE id=" ++ id ++ " AND etag=" ++ etag ++ ";".

(** An INSERT statement of insertItems with the given columns and values. *)
Definition insertReturningText (table : string) (columns values : list string) : string :=
  "INSERT INTO " ++ table ++ "(" ++ join ", " columns ++ ")"
    ++ "VALUES(" ++ join ", " values ++ ")" ++ " RETURNING id".

(** Every AND / OR group of the tree has a child and every IN / NOT IN
    list has a value. *)
Fixpoint wellFormed (e : Expression) : bool :=
  match e with
  | query.And t | query.Or t => negb (List.length t =? 0)%nat && forallb wellFormed t
  | query.In _ vs | query.NotIn _ vs => negb (List.length vs =? 0)%nat
  | _ => true
  end.

(** Every node of the tree is of a type the translator has a case for. *)
Fixpoint known (e : Expression) : bool :=
  match e with
  | query.And t | query.Or t => forallb known t
  | query.Other => false
  | _ => true
  end.

(** [f] on every element in order, stopping at the first that fails. *)
Definition mapResult {A B : Type} (f : A -> result B) : list A -> result (list B) :=
  fix go (l : list A) : result (list B) :=
    match l with
    | [] => Ok []
    | x :: l' => y <- f x ;; ys <- go l' ;; Ok (y :: ys)
    end.

(** The translation of a tree as the specification words it: a group is
    its children's translations joined by the connective, between
    parentheses, whatever the depth; a comparison is what the translator
    writes for it. *)
Fixpoint specTranslate (e : Expression) : result string :=
  match e with
  | query.And t =>
      subs <- mapResult specTranslate t ;; Ok ("(" ++ join " AND " subs ++ ")")
  | query.Or t =>
      subs <- mapResult specTranslate t ;; Ok ("(" ++ join " OR " subs ++ ")")
  | _ => translatePredicate [e]
  end.

(** Every AND / OR group of the tree has a child. *)
Fixpoint grouped (e : Expression) : bool :=
  match e with
  | query.And t | query.Or t => negb (List.length t =? 0)%nat && forallb grouped t
  | _ => true
  end.

(** The text getSort writes for one sort field. *)
Definition sortKey (f : query.SortField) : string :=
  if query.Reversed f then query.Name f ++ " DESC" else query.Name f.

(** What Find stores for a scanned cell. *)
Definition cellValue (c : Cell) : Value :=
  match c with
  | CBytes b => VString b
  | CValue v => v
  end.

(** The cell under the last of the columns named [c]. *)
Fixpoint lastCell (c : string) (cols : list string) (cells : list Cell) : option Cell :=
  match cols, cells with
  | col :: cols', cell :: cells' =>
      match lastCell c cols' cells' with
      | Some x => Some x
      | None => if (col =? c) then Some cell else None
      end
  | _, _ => None
  end.

(** The map has the key. *)
Definition hasKey (k : string) (m : Map) : bool :=
  existsb (fun kv => fst kv =? k) m.

(** The row query of compareEtags in pgsql.go, as a call. *)
Definition selectEtag (h : Handler) (id : Value) : Call :=
  CallQueryRowString
    Session ("SELECT etag FROM " ++ tableName h ++ " WHERE id='" ++ fmtV id ++ "'") [].

(** The statement getUpdate builds. *)
Definition updateStatement (now : Clock) (h : Handler) (i o : resource.Item) : string :=
  updateText (tableName h)
             (("etag=" ++ quoted (resource.ETag i))
                :: updateAssignments now 0 (resource.Payload i))
             (literal (resource.ID o)) (quoted (resource.ETag o)).

(** The statement Delete builds. *)
Definition deleteStatement (h : Handler) (item : resource.Item) : string :=
  "DELETE FROM " ++ tableName h ++ " WHERE id = '" ++ fmtS (resource.ID item) ++ "'".

(** The statements getInsert builds for a list of items, the first of
    them being item [n] of Insert. *)
Fixpoint insertStatements (now : nat -> Clock) (h : Handler) (n : nat)
         (items : list resource.Item) : list string :=
  match items with
  | [] => []
  | i :: items' =>
      insertText (tableName h)
                 ("etag" :: map fst (resource.Payload i))
                 (quoted (resource.ETag i) :: insertValues (now n) 0 (resource.Payload i))
        :: insertStatements now h (S n) items'
  end.

(** The statement insertItems builds for an sqlItem. *)
Definition returningStatement (h : Handler) (i : pgsql2.sqlItem) : string :=
  insertReturningText (tableName h)
                      ("etag" :: map fst (pgsql2.sPayload i))
                      (quoted (pgsql2.sETag i)
                         :: map (fun kv => literal (snd kv)) (pgsql2.sPayload i)).

(** The calls of one item of insertItems whose transaction went through. *)
Definition committed (stmt : string) : list Call :=
  [CallBegin; CallQueryRowInt Tx stmt []; CallCommit].

(** No byte of the text is a wildcard marker. *)
Fixpoint plain (s : string) : bool :=
  match s with
  | EmptyString => true
  | String c s' => negb (Ascii.eqb c "*") && negb (Ascii.eqb c "_") && plain s'
  end.


(** * Properties *)

Example translate_nested :
  translatePredicate
    [query.Or [query.And [query.Equal "name" (VString "a*_");
                          query.GreaterThan "age" (VInt 18)];
               query.In "id" [VInt 1; VInt (-2)]];
     query.NotEqual "ok" (VBool true)]
  = Ok "((name LIKE 'a%\_' ESCAPE '\' AND age > 18) OR id IN (1,-2))ok IS NOT true".
Proof. reflexivity. Qed.

Example translate_empty_and : translatePredicate [query.And []] = Panic.
Proof. reflexivity. Qed.

(** ** Strings and loops *)

Lemma append_assoc (a b c : string) : (a ++ b) ++ c = a ++ (b ++ c).
Proof. induction a as [|x a IH]; simpl; [reflexivity | now rewrite IH]. Qed.

Lemma append_nil_r (a : string) : a ++ "" = a.
Proof. induction a as [|x a IH]; simpl; [reflexivity | now rewrite IH]. Qed.

Lemma length_append (a b : string) :
  String.length (a ++ b) = (String.length a + String.length b)%nat.
Proof. induction a as [|x a IH]; simpl; [reflexivity | now rewrite IH]. Qed.

Lemma substring_append (a b : string) :
  substring 0 (String.length a) (a ++ b) = a.
Proof.
  induction a as [|x a IH]; simpl.
  - now destruct b.
  - now rewrite IH.
Qed.

(** Slicing off a suffix of known length gives back the rest. *)
Lemma sliceTo_suffix (a b : string) (k : Z) :
  k = Z.of_nat (String.length b) ->
  sliceTo (a ++ b) (len (a ++ b) - k) = Ok a.
Proof.
  intros ->. unfold sliceTo, len. rewrite length_append.
  replace (Z.of_nat (String.length a + String.length b) - Z.of_nat (String.length b))%Z
    with (Z.of_nat (String.length a)) by lia.
  replace (Z.of_nat (String.length a) <? 0)%Z with false by (symmetry; apply Z.ltb_ge; lia).
  replace (Z.of_nat (String.length a + String.length b) <? Z.of_nat (String.length a))%Z
    with false by (symmetry; apply Z.ltb_ge; lia).
  simpl. now rewrite Nat2Z.id, substring_append.
Qed.

(** A slice bound below zero panics. *)
Lemma sliceTo_negative (s : string) (hi : Z) : (hi < 0)%Z -> sliceTo s hi = Panic.
Proof.
  intros H. unfold sliceTo.
  now replace (hi <? 0)%Z with true by (symmetry; apply Z.ltb_lt; lia).
Qed.

(** Both sides of an equation between texts, appended to the right. *)
Ltac string_norm :=
  repeat (progress (rewrite ?append_assoc, ?append_nil_r; simpl)).

Lemma bind_assoc {A B C : Type} (r : result A) (f : A -> result B) (g : B -> result C) :
  (y <- (x <- r ;; f x) ;; g y) = (x <- r ;; y <- f x ;; g y).
Proof. now destruct r. Qed.

Lemma bind_ext {A B : Type} (r : result A) (f g : A -> result B) :
  (forall a, f a = g a) -> (x <- r ;; f x) = (x <- r ;; g x).
Proof. intros H. destruct r; simpl; auto. Qed.

Lemma rangeM_app {A S : Type} (body : S -> A -> result S) (l1 l2 : list A) (s : S) :
  rangeM body (l1 ++ l2)%list s = (s' <- rangeM body l1 s ;; rangeM body l2 s').
Proof.
  revert s. induction l1 as [|x l1 IH]; intros s; simpl; [reflexivity|].
  destruct (body s x); simpl; auto.
Qed.

(** ** Predicate translation *)

(** Induction over a predicate tree, with the hypothesis for every child
    of a group. *)
Section ExpressionInd.

Variable P : Expression -> Prop.
Hypothesis HAnd : forall t, Forall P t -> P (query.And t).
Hypothesis HOr : forall t, Forall P t -> P (query.Or t).
Hypothesis HLeaf : forall e,
    match e with query.And _ | query.Or _ => True | _ => P e end.

Fixpoint Expression_tree_ind (e : Expression) : P e :=
  match e with
  | query.And t =>
      HAnd ((fix all (l : list Expression) : Forall P l :=
               match l with
               | [] => Forall_nil P
               | x :: l' => Forall_cons x (Expression_tree_ind x) (all l')
               end) t)
  | query.Or t =>
      HOr ((fix all (l : list Expression) : Forall P l :=
              match l with
              | [] => Forall_nil P
              | x :: l' => Forall_cons x (Expression_tree_ind x) (all l')
              end) t)
  | e' => HLeaf e'
  end.

End ExpressionInd.

(** The equations of the two group cases, with the recursive call written
    as the source has it. *)
Lemma translateExpression_And (str : string) (t : list Expression) :
  translateExpression str (query.And t) =
    (s <- rangeM (fun s subExp =>
                    sb <- translatePredicate [subExp] ;; Ok (s ++ sb ++ " AND ")) t "" ;;
     s' <- sliceTo s (len s - 5) ;;
     Ok (str ++ "(" ++ s' ++ ")")).
Proof. reflexivity. Qed.

Lemma translateExpression_Or (str : string) (t : list Expression) :
  translateExpression str (query.Or t) =
    (s <- rangeM (fun s subExp =>
                    sb <- translatePredicate [subExp] ;; Ok (s ++ sb ++ " OR ")) t "" ;;
     s' <- sliceTo s (len s - 4) ;;
     Ok (str ++ "(" ++ s' ++ ")")).
Proof. reflexivity. Qed.

(** The encoder has no failing branch. *)
Lemma valueToString_Ok (v : Value) :
  valueToString v =
    Ok (match v with
        | VInt _ | VFloat64 _ | VBool _ => fmtV v
        | _ => "'" ++ fmtV v ++ "'"
        end).
Proof. now destruct v. Qed.

(** Each expression appends its own text to what came before it. *)
Lemma translateExpression_acc (str : string) (e : Expression) :
  translateExpression str e = (s <- translateExpression "" e ;; Ok (str ++ s)).
Proof.
  destruct e as [t|t|f vs|f vs|f v|f v|f v|f v|f v|f v| ];
    try (rewrite ?translateExpression_And, ?translateExpression_Or;
         rewrite !bind_assoc; apply bind_ext; intros s;
         rewrite !bind_assoc; apply bind_ext; intros s'; reflexivity);
    try (simpl; destruct (valuesToString vs); reflexivity);
    try (simpl; rewrite valueToString_Ok; destruct v; reflexivity).
  reflexivity.
Qed.

Lemma translateLoop_acc (p : query.Predicate) (str : string) :
  rangeM translateExpression p str = (s <- translatePredicate p ;; Ok (str ++ s)).
Proof.
  unfold translatePredicate. revert str.
  induction p as [|e p IH]; intros str; simpl.
  - now rewrite append_nil_r.
  - rewrite translateExpression_acc.
    destruct (translateExpression "" e) as [s| |]; simpl; try reflexivity.
    rewrite (IH (str ++ s)), (IH s).
    destruct (rangeM translateExpression p ""); simpl; try reflexivity.
    now rewrite append_assoc.
Qed.

(** Translation distributes over the concatenation of predicates. *)
Lemma translatePredicate_app (p1 p2 : query.Predicate) :
  translatePredicate (p1 ++ p2)%list =
    (a <- translatePredicate p1 ;; b <- translatePredicate p2 ;; Ok (a ++ b)).
Proof.
  unfold translatePredicate at 1. rewrite rangeM_app.
  fold (translatePredicate p1). apply bind_ext. intros a.
  apply translateLoop_acc.
Qed.

Lemma translatePredicate_single (e : Expression) :
  translatePredicate [e] = translateExpression "" e.
Proof.
  unfold translatePredicate. simpl. now destruct (translateExpression "" e).
Qed.

(** *** AND / OR groups *)

Lemma suffixed_join (sep : string) (l : list string) :
  l <> [] -> suffixed sep l = join sep l ++ sep.
Proof.
  induction l as [|x l IH]; [congruence|]. intros _.
  destruct l as [|y l].
  - simpl. now rewrite append_nil_r.
  - change (suffixed sep (x :: y :: l)) with ((x ++ sep) ++ suffixed sep (y :: l)).
    change (join sep (x :: y :: l)) with (x ++ sep ++ join sep (y :: l)).
    rewrite IH by congruence. now rewrite !append_assoc.
Qed.

Lemma translateEach_nonempty (t : list Expression) (subs : list string) :
  t <> [] -> translateEach t = Ok subs -> subs <> [].
Proof.
  destruct t as [|e t]; [congruence|]. intros _. simpl.
  destruct (translatePredicate [e]); simpl; try discriminate.
  destruct (translateEach t); simpl; try discriminate.
  intros [= <-]. discriminate.
Qed.

(** The loop of a group gathers the children's texts, each followed by the
    connective. *)
Lemma groupLoop (sep : string) (t : list Expression) (s0 : string) :
  rangeM (fun s subExp => sb <- translatePredicate [subExp] ;; Ok (s ++ sb ++ sep)) t s0
  = (subs <- translateEach t ;; Ok (s0 ++ suffixed sep subs)).
Proof.
  revert s0. induction t as [|e t IH]; intros s0; simpl.
  - now rewrite append_nil_r.
  - destruct (translatePredicate [e]) as [sb| |]; simpl; try reflexivity.
    rewrite IH. destruct (translateEach t) as [rest| |]; simpl; try reflexivity.
    now rewrite !append_assoc.
Qed.

Lemma translateGroup (sep : string) (k : Z) (t : list Expression) (str : string) :
  t <> [] -> k = Z.of_nat (String.length sep) ->
  (s <- rangeM (fun s subExp =>
                  sb <- translatePredicate [subExp] ;; Ok (s ++ sb ++ sep)) t "" ;;
   s' <- sliceTo s (len s - k) ;;
   Ok (str ++ "(" ++ s' ++ ")"))
  = (subs <- translateEach t ;; Ok (str ++ "(" ++ join sep subs ++ ")")).
Proof.
  intros Ht Hk. rewrite groupLoop.
  destruct (translateEach t) as [subs| |] eqn:E; simpl; try reflexivity.
  rewrite suffixed_join by (eapply translateEach_nonempty; eauto).
  now rewrite (sliceTo_suffix _ _ Hk).
Qed.

Lemma translateExpression_group (str : string) (t : list Expression) :
  t <> [] ->
  translateExpression str (query.And t)
  = (subs <- translateEach t ;; Ok (str ++ "(" ++ join " AND " subs ++ ")"))
  /\ translateExpression str (query.Or t)
     = (subs <- translateEach t ;; Ok (str ++ "(" ++ join " OR " subs ++ ")")).
Proof.
  intros Ht. split.
  - rewrite translateExpression_And. now apply translateGroup.
  - rewrite translateExpression_Or. now apply translateGroup.
Qed.

Lemma nonempty_length {A : Type} (l : list A) :
  negb (List.length l =? 0)%nat = true <-> l <> [].
Proof. destruct l; simpl; intuition congruence. Qed.

Lemma translateEach_spec (t : list Expression) :
  Forall (fun e => grouped e = true -> translatePredicate [e] = specTranslate e) t ->
  forallb grouped t = true ->
  translateEach t = mapResult specTranslate t.
Proof.
  induction 1 as [|e t He _ IH]; intros Hg; [reflexivity|].
  simpl in Hg. apply andb_prop in Hg. destruct Hg as [Hge Hgt].
  cbn [translateEach mapResult]. now rewrite (He Hge), (IH Hgt).
Qed.

(** With a child in every group, the translator computes the translation
    as the specification words it. *)
Lemma specTranslate_correct (e : Expression) :
  grouped e = true -> translatePredicate [e] = specTranslate e.
Proof.
  revert e.
  apply (@Expression_tree_ind
           (fun e => grouped e = true -> translatePredicate [e] = specTranslate e));
    [intros t IH | intros t IH | intros e].
  - cbn [grouped]. intros H. apply andb_prop in H. destruct H as [Hne Hg].
    apply nonempty_length in Hne.
    rewrite translatePredicate_single, (proj1 (translateExpression_group "" Hne)).
    cbn [specTranslate]. now rewrite (translateEach_spec IH Hg).
  - cbn [grouped]. intros H. apply andb_prop in H. destruct H as [Hne Hg].
    apply nonempty_length in Hne.
    rewrite translatePredicate_single, (proj2 (translateExpression_group "" Hne)).
    cbn [specTranslate]. now rewrite (translateEach_spec IH Hg).
  - now destruct e.
Qed.

(** C1. In a predicate, an AND group (an OR group) with at least one child
    contributes the translations of its children, each translated on its
    own, joined in order with " AND " (" OR ") inside one pair of
    parentheses; a child that fails makes the whole translation fail. The
    children are translated the same way: when the groups below have a
    child each, at every depth, their translations are those the
    specification words. *)
Theorem group_translation (pre post : query.Predicate) (t : list Expression) :
  t <> [] ->
  translatePredicate (pre ++ query.And t :: post)%list
  = (a <- translatePredicate pre ;;
     subs <- translateEach t ;;
     b <- translatePredicate post ;;
     Ok (a ++ ("(" ++ join " AND " subs ++ ")") ++ b))
  /\
  translatePredicate (pre ++ query.Or t :: post)%list
  = (a <- translatePredicate pre ;;
     subs <- translateEach t ;;
     b <- translatePredicate post ;;
     Ok (a ++ ("(" ++ join " OR " subs ++ ")") ++ b))
  /\
  (forallb grouped t = true -> translateEach t = mapResult specTranslate t).
Proof.
  intros Ht. split; [|split].
  - rewrite translatePredicate_app. apply bind_ext. intros a.
    change (query.And t :: post) with ([query.And t] ++ post)%list.
    rewrite translatePredicate_app, translatePredicate_single.
    rewrite (proj1 (translateExpression_group "" Ht)).
    destruct (translateEach t); simpl; try reflexivity.
    now destruct (translatePredicate post).
  - rewrite translatePredicate_app. apply bind_ext. intros a.
    change (query.Or t :: post) with ([query.Or t] ++ post)%list.
    rewrite translatePredicate_app, translatePredicate_single.
    rewrite (proj2 (translateExpression_group "" Ht)).
    destruct (translateEach t); simpl; try reflexivity.
    now destruct (translatePredicate post).
  - apply translateEach_spec. apply Forall_forall. intros e _.
    apply specTranslate_correct.
Qed.

Lemma group_translation_witness :
  translatePredicate
    ([query.LowerThan "a" (VInt 1)]
       ++ query.And [query.Or [query.Equal "b" (VBool true); query.Equal "c" (VString "x*")];
                     query.GreaterOrEqual "d" (VInt 2)]
       :: [query.In "e" [VInt 3]])%list
  = Ok "a < 1((b IS true OR c LIKE 'x%' ESCAPE '\') AND d >= 2)e IN (3)".
Proof.
  rewrite (proj1 (group_translation
                    [query.LowerThan "a" (VInt 1)] [query.In "e" [VInt 3]]
                    (t := [query.Or [query.Equal "b" (VBool true);
                                     query.Equal "c" (VString "x*")];
                           query.GreaterOrEqual "d" (VInt 2)])
                    ltac:(discriminate))).
  reflexivity.
Defined.

(** *** The empty predicate *)

Lemma getSelect_shape (h : Handler) (q : query.Query) :
  pgsql.getSelect h q
  = (qry <- getQuery q ;;
     order <- orderClause q ;;
     Ok ("SELECT * FROM " ++ tableName h
           ++ (if (qry =? "") then "" else " WHERE " ++ qry)
           ++ order ++ windowClause q ++ ";")).
Proof.
  unfold pgsql.getSelect, orderClause, windowClause.
  destruct (getQuery q) as [qry| |]; simpl; try reflexivity.
  destruct (query.Sort q); simpl.
  - destruct (getSort q) as [sort| |]; simpl; try reflexivity.
    destruct (qry =? ""); destruct (query.Window_ q) as [w|];
      try destruct (query.Limit w >=? 0)%Z;
      now string_norm.
  - destruct (qry =? ""); destruct (query.Window_ q) as [w|];
      try destruct (query.Limit w >=? 0)%Z;
      now string_norm.
Qed.

(** C2. For a query with no filter, predicate translation returns the empty
    string and getSelect leaves the WHERE clause out; getDelete writes the
    keyword all the same, with nothing after it. *)
Theorem empty_predicate_statements
        (h : Handler) (sort : option (list query.SortField)) (w : option query.Window) :
  let q := {| query.Predicate_ := []; query.Sort := sort; query.Window_ := w |} in
  getQuery q = Ok ""
  /\ pgsql.getSelect h q
     = (order <- orderClause q ;;
        Ok ("SELECT * FROM " ++ tableName h ++ order ++ windowClause q ++ ";"))
  /\ pgsql.getDelete h q = Ok ("DELETE FROM " ++ tableName h ++ " WHERE ;").
Proof.
  intros q. split; [reflexivity|]. split.
  - rewrite getSelect_shape. reflexivity.
  - unfold pgsql.getDelete. simpl. now rewrite append_assoc.
Qed.

Example delete_without_filter :
  pgsql.getDelete {| tableName := "users" |}
                  {| query.Predicate_ := []; query.Sort := None; query.Window_ := None |}
  = Ok "DELETE FROM users WHERE ;".
Proof. reflexivity. Qed.

Example select_without_filter :
  pgsql.getSelect {| tableName := "users" |}
                  {| query.Predicate_ := [];
                     query.Sort := Some [];
                     query.Window_ := Some {| query.Offset := 10; query.Limit := 5 |} |}
  = Ok "SELECT * FROM users ORDER BY id LIMIT 5 OFFSET 10;".
Proof. reflexivity. Qed.

(** *** Equality on strings and on other values *)

Lemma mapChars_app (f : ascii -> string) (a b : string) :
  mapChars f (a ++ b) = mapChars f a ++ mapChars f b.
Proof.
  induction a as [|c a IH]; simpl; [reflexivity|].
  now rewrite IH, append_assoc.
Qed.

Lemma prefix_nil (s : string) : prefix "" s = true.
Proof. now destruct s. Qed.

(** Replacing a one-byte text is a byte-wise substitution. *)
Lemma Replace_byte (c : ascii) (new s : string) :
  Replace s (String c "") new
  = mapChars (fun x => if Ascii.eqb x c then new else String x "") s.
Proof.
  unfold Replace. induction s as [|x s IH]; simpl; [reflexivity|].
  destruct (ascii_dec c x) as [->|Hne].
  - rewrite prefix_nil, Ascii.eqb_refl. now rewrite IH.
  - replace (Ascii.eqb x c) with false
      by (symmetry; apply Ascii.eqb_neq; congruence).
    simpl. now rewrite IH.
Qed.

Lemma mapChars_mapChars (f g : ascii -> string) (s : string) :
  mapChars g (mapChars f s) = mapChars (fun c => mapChars g (f c)) s.
Proof.
  induction s as [|c s IH]; simpl; [reflexivity|].
  now rewrite mapChars_app, IH.
Qed.

Lemma mapChars_ext (f g : ascii -> string) (s : string) :
  (forall c, f c = g c) -> mapChars f s = mapChars g s.
Proof.
  intros H. induction s as [|c s IH]; simpl; [reflexivity|]. now rewrite H, IH.
Qed.

(** The two replacements of the translator make the LIKE pattern. *)
Lemma Replace_likePattern (v : string) :
  Replace (Replace v "*" "%") "_" "\_" = likePattern v.
Proof.
  rewrite !Replace_byte, mapChars_mapChars. unfold likePattern.
  apply mapChars_ext. intros c.
  destruct (Ascii.eqb c "*") eqn:Hstar.
  - reflexivity.
  - simpl. now destruct (Ascii.eqb c "_").
Qed.

Lemma likePattern_quoted (s : string) :
  likePattern ("'" ++ s ++ "'") = "'" ++ likePattern s ++ "'".
Proof.
  unfold likePattern. change ("'" ++ s ++ "'") with (String "'" (s ++ "'")).
  simpl. now rewrite mapChars_app.
Qed.

Lemma translateExpression_Equal_string (str Field s : string) :
  translateExpression str (query.Equal Field (VString s))
  = Ok (str ++ Field ++ " LIKE "
            ++ Replace (Replace ("'" ++ s ++ "'") "*" "%") "_" "\_" ++ " ESCAPE '\'").
Proof. reflexivity. Qed.

Lemma translateExpression_NotEqual_string (str Field s : string) :
  translateExpression str (query.NotEqual Field (VString s))
  = Ok (str ++ Field ++ " NOT LIKE "
            ++ Replace (Replace ("'" ++ s ++ "'") "*" "%") "_" "\_" ++ " ESCAPE '\'").
Proof. reflexivity. Qed.

(** C3. An equality (a not-equal) comparison on a string value translates
    to [field LIKE literal ESCAPE '\'] ([NOT LIKE]), the literal being the
    quoted value with every [*] replaced by [%] and every [_] by [\_]; on a
    value of any other type it translates to [field IS literal]
    ([IS NOT]) with the encoder's literal. *)
Theorem equality_translation (Field : string) (v : Value) :
  (forall s, v = VString s ->
     translatePredicate [query.Equal Field v]
     = Ok (Field ++ " LIKE " ++ ("'" ++ likePattern s ++ "'") ++ " ESCAPE '\'")
     /\ translatePredicate [query.NotEqual Field v]
        = Ok (Field ++ " NOT LIKE " ++ ("'" ++ likePattern s ++ "'") ++ " ESCAPE '\'"))
  /\ (isString v = false ->
      translatePredicate [query.Equal Field v] = Ok (Field ++ " IS " ++ literal v)
      /\ translatePredicate [query.NotEqual Field v] = Ok (Field ++ " IS NOT " ++ literal v)).
Proof.
  split.
  - intros s ->. rewrite !translatePredicate_single.
    rewrite translateExpression_Equal_string, translateExpression_NotEqual_string.
    now rewrite !Replace_likePattern, !likePattern_quoted.
  - intros Hv. rewrite !translatePredicate_single.
    destruct v; try discriminate; split; reflexivity.
Qed.

Lemma equality_translation_witness :
  (translatePredicate [query.Equal "name" (VString "a*_b")]
   = Ok "name LIKE 'a%\_b' ESCAPE '\'"
   /\ translatePredicate [query.NotEqual "name" (VString "a*_b")]
      = Ok "name NOT LIKE 'a%\_b' ESCAPE '\'")
  /\ (translatePredicate [query.Equal "age" (VInt 42)] = Ok "age IS 42"
      /\ translatePredicate [query.NotEqual "age" (VInt 42)] = Ok "age IS NOT 42").
Proof.
  split.
  - exact (proj1 (equality_translation "name" (VString "a*_b")) "a*_b" eq_refl).
  - exact (proj2 (equality_translation "age" (VInt 42)) eq_refl).
Defined.

(** *** Statements built from an item *)

Lemma suffixed_app (sep : string) (l1 l2 : list string) :
  suffixed sep (l1 ++ l2)%list = suffixed sep l1 ++ suffixed sep l2.
Proof.
  induction l1 as [|x l1 IH]; simpl; [reflexivity|].
  now rewrite IH, !append_assoc.
Qed.

(** Trimming the separator after the last element of a list that is not
    empty leaves the joined list. *)
Lemma slice_suffixed (pre sep : string) (l : list string) (k : Z) :
  l <> [] -> k = Z.of_nat (String.length sep) ->
  sliceTo (pre ++ suffixed sep l) (len (pre ++ suffixed sep l) - k)
  = Ok (pre ++ join sep l).
Proof.
  intros Hl Hk. rewrite (suffixed_join sep Hl), <- append_assoc.
  now apply sliceTo_suffix.
Qed.

Lemma getInsert_loop (now : Clock) (p : Map) (a z : string) (j : nat) :
  rangeM (fun (st : string * string * nat) (kv : string * Value) =>
            let '(a, z, j) := st in
            let (k, v) := kv in
            let a := a ++ k ++ "," in
            val <- orNotImplemented (valueToString v) ;;
            let val := if (k =? "created") || (k =? "updated")
                       then "'" ++ now j ++ "'"
                       else val in
            Ok (a, z ++ val ++ ",", S j))
         p (a, z, j)
  = Ok (a ++ suffixed "," (map fst p),
        z ++ suffixed "," (insertValues now j p),
        (j + List.length p)%nat).
Proof.
  revert a z j. induction p as [|[k v] p IH]; intros a z j.
  - simpl. now rewrite !append_nil_r, Nat.add_0_r.
  - cbn [rangeM]. rewrite valueToString_Ok. cbn [orNotImplemented bind].
    rewrite IH. cbn [map fst insertValues suffixed List.length].
    unfold insertValue. cbn [fst snd]. fold (literal v). unfold quoted.
    rewrite !append_assoc. f_equal. f_equal. lia.
Qed.

(** The statement getInsert returns: the etag and every payload key as
    columns, in the order visited, with the values of [insertValues]. *)
Lemma getInsert_text (now : Clock) (h : Handler) (i : resource.Item) :
  pgsql.getInsert now h i
  = Ok (insertText (tableName h)
                   ("etag" :: map fst (resource.Payload i))
                   (quoted (resource.ETag i) :: insertValues now 0 (resource.Payload i))).
Proof.
  unfold pgsql.getInsert. rewrite getInsert_loop. cbn [bind].
  replace (("INSERT INTO " ++ tableName h ++ "(etag,")
             ++ suffixed "," (map fst (resource.Payload i)))
    with (("INSERT INTO " ++ tableName h ++ "(")
            ++ suffixed "," ("etag" :: map fst (resource.Payload i)))
    by now string_norm.
  replace (("VALUES(" ++ ("'" ++ resource.ETag i ++ "'") ++ ",")
             ++ suffixed "," (insertValues now 0 (resource.Payload i)))
    with ("VALUES("
            ++ suffixed "," (quoted (resource.ETag i)
                               :: insertValues now 0 (resource.Payload i)))
    by (unfold quoted; now string_norm).
  rewrite (@slice_suffixed _ "," _ 1%Z); [ | discriminate | reflexivity ].
  cbn [bind].
  rewrite (@slice_suffixed _ "," _ 1%Z); [ | discriminate | reflexivity ].
  cbn [bind]. unfold insertText. now rewrite !append_assoc.
Qed.

Lemma getUpdate_loop (now : Clock) (p : Map) (a : string) (j : nat) :
  rangeM (fun (st : string * nat) (kv : string * Value) =>
            let (a, j) := st in
            let (k, v) := kv in
            if negb (k =? "id") then
              val <- orNotImplemented (valueToString v) ;;
              let val := if (k =? "updated")
                         then "'" ++ now j ++ "'"
                         else val in
              Ok (a ++ (k ++ "=" ++ val ++ ","), S j)
            else Ok (a, S j))
         p (a, j)
  = Ok (a ++ suffixed "," (updateAssignments now j p), (j + List.length p)%nat).
Proof.
  revert a j. induction p as [|[k v] p IH]; intros a j.
  - simpl. now rewrite append_nil_r, Nat.add_0_r.
  - cbn [rangeM updateAssignments]. destruct (negb (k =? "id")).
    + rewrite valueToString_Ok. cbn [orNotImplemented bind].
      rewrite IH. cbn [suffixed List.length]. fold (literal v). unfold quoted.
      rewrite !append_assoc. f_equal. f_equal. lia.
    + cbn [bind]. rewrite IH. cbn [List.length]. f_equal. f_equal. lia.
Qed.

(** The statement getUpdate returns: the etag and every payload key but
    id as assignments, in the order visited. *)
Lemma getUpdate_text (now : Clock) (h : Handler) (i o : resource.Item) :
  pgsql.getUpdate now h i o
  = Ok (updateText (tableName h)
                   (("etag=" ++ quoted (resource.ETag i))
                      :: updateAssignments now 0 (resource.Payload i))
                   (literal (resource.ID o)) (quoted (resource.ETag o))).
Proof.
  unfold pgsql.getUpdate. rewrite valueToString_Ok. cbn [orNotImplemented bind].
  fold (literal (resource.ID o)). rewrite getUpdate_loop. cbn [bind].
  replace (("UPDATE " ++ tableName h ++ " SET etag=" ++ ("'" ++ resource.ETag i ++ "'") ++ ",")
             ++ suffixed "," (updateAssignments now 0 (resource.Payload i)))
    with (("UPDATE " ++ tableName h ++ " SET ")
            ++ suffixed "," (("etag=" ++ quoted (resource.ETag i))
                               :: updateAssignments now 0 (resource.Payload i)))
    by (unfold quoted; now string_norm).
  rewrite (@slice_suffixed _ "," _ 1%Z); [ | discriminate | reflexivity ].
  cbn [bind]. unfold updateText, quoted. now rewrite !append_assoc.
Qed.

Lemma insertStatement_loop (p : Map) (columns rows : string) :
  rangeM (fun (st : string * string) (kv : string * Value) =>
            let (columns, rows) := st in
            let (key, value) := kv in
            let columns := columns ++ (key ++ ", ") in
            v <- valueToString value ;;
            Ok (columns, rows ++ (v ++ ", ")))
         p (columns, rows)
  = Ok (columns ++ suffixed ", " (map fst p),
        rows ++ suffixed ", " (map (fun kv => literal (snd kv)) p)).
Proof.
  revert columns rows. induction p as [|[k v] p IH]; intros columns rows.
  - simpl. now rewrite !append_nil_r.
  - cbn [rangeM]. rewrite valueToString_Ok. cbn [bind].
    rewrite IH. cbn [map fst snd suffixed]. fold (literal v).
    now rewrite !append_assoc.
Qed.

(** The statement insertItems prepares: the etag and every key of the
    sqlItem's payload as columns, in the order visited. *)
Lemma insertStatement_text (h : Handler) (i : pgsql2.sqlItem) :
  pgsql2.insertStatement h i
  = Ok (insertReturningText
          (tableName h)
          ("etag" :: map fst (pgsql2.sPayload i))
          (quoted (pgsql2.sETag i)
             :: map (fun kv => literal (snd kv)) (pgsql2.sPayload i))).
Proof.
  unfold pgsql2.insertStatement. rewrite insertStatement_loop. cbn [bind].
  replace ("(etag, " ++ suffixed ", " (map fst (pgsql2.sPayload i)))
    with ("(" ++ suffixed ", " ("etag" :: map fst (pgsql2.sPayload i)))
    by now string_norm.
  replace (("VALUES('" ++ pgsql2.sETag i ++ "', ")
             ++ suffixed ", " (map (fun kv => literal (snd kv)) (pgsql2.sPayload i)))
    with ("VALUES("
            ++ suffixed ", " (quoted (pgsql2.sETag i)
                                :: map (fun kv => literal (snd kv)) (pgsql2.sPayload i)))
    by (unfold quoted; now string_norm).
  rewrite (@slice_suffixed _ ", " _ 2%Z); [ | discriminate | reflexivity ].
  cbn [bind].
  rewrite (@slice_suffixed _ ", " _ 2%Z); [ | discriminate | reflexivity ].
  cbn [bind]. unfold insertReturningText. now rewrite !append_assoc.
Qed.

(** *** Values of unsupported types *)

(** C4 (as the code has it). The encoder has no failing case: a value
    whose type is none of int, float64, bool, string and time.Time is
    written as its default text between single quotes, and the statement
    under construction carries that text. *)
Theorem unsupported_value_encoded (v : Value) :
  supported v = false ->
  valueToString v = Ok (quoted (fmtV v))
  /\ (forall Field,
        translatePredicate [query.GreaterThan Field v]
        = Ok (Field ++ " > " ++ quoted (fmtV v)))
  /\ (forall now h id etag updated k,
        (k =? "created") || (k =? "updated") = false ->
        pgsql.getInsert now h {| resource.ID := id; resource.ETag := etag;
                                 resource.Updated := updated;
                                 resource.Payload := [(k, v)] |}
        = Ok (insertText (tableName h) ["etag"; k] [quoted etag; quoted (fmtV v)])).
Proof.
  intros Hv. split; [|split].
  - destruct v; try discriminate; reflexivity.
  - intros Field. rewrite translatePredicate_single.
    destruct v; try discriminate; reflexivity.
  - intros now h id etag updated k Hk. rewrite getInsert_text.
    cbn [resource.Payload resource.ETag map fst insertValues].
    unfold insertValue. cbn [fst snd]. rewrite Hk.
    destruct v; try discriminate; reflexivity.
Qed.

Lemma unsupported_value_encoded_witness :
  valueToString VNil = Ok "'<nil>'"
  /\ translatePredicate [query.GreaterThan "age" VNil] = Ok "age > '<nil>'".
Proof.
  split.
  - exact (proj1 (unsupported_value_encoded VNil eq_refl)).
  - exact (proj1 (proj2 (unsupported_value_encoded VNil eq_refl)) "age").
Defined.

(** A slice of integers reaches the statement as text: the encoder
    returns no error for it. *)
Lemma unsupported_value_counterexample :
  let v := VOther "[1 2]" "[%!s(int=1) %!s(int=2)]" in
  supported v = false
  /\ valueToString v = Ok "'[1 2]'"
  /\ ~ (exists e, valueToString v = Err e)
  /\ pgsql.getInsert (fun _ => "2018-02-27T23:07:44+01:00")
                     {| tableName := "posts" |}
                     {| resource.ID := VString "p1"; resource.ETag := "e1";
                        resource.Updated := "2018-02-27T23:07:44+01:00";
                        resource.Payload := [("tags", v)] |}
     = Ok "INSERT INTO posts(etag,tags) VALUES('e1','[1 2]');".
Proof.
  cbv zeta. repeat split; try reflexivity.
  intros [e He]. discriminate He.
Qed.

(** *** The created and updated columns *)

Lemma insertValues_nth (now : Clock) (p : Map) (j0 j : nat) (kv : string * Value) :
  nth_error p j = Some kv ->
  nth_error (insertValues now j0 p) j = Some (insertValue now (j0 + j) kv).
Proof.
  revert j0 j. induction p as [|x p IH]; intros j0 [|j] H; try discriminate.
  - injection H as ->. simpl. now rewrite Nat.add_0_r.
  - simpl in H. simpl. rewrite (IH (S j0) j H). f_equal. f_equal. lia.
Qed.

Lemma updateAssignments_nth (now : Clock) (p : Map) (j0 j : nat) (k : string) (v : Value) :
  nth_error p j = Some (k, v) -> k <> "id" ->
  List.In (k ++ "=" ++ (if (k =? "updated") then quoted (now (j0 + j)) else literal v))
          (updateAssignments now j0 p).
Proof.
  revert j0 j. induction p as [|[k' v'] p IH]; intros j0 [|j] H Hk; try discriminate.
  - injection H as -> ->. simpl.
    replace (k =? "id") with false by (symmetry; now apply String.eqb_neq).
    simpl. rewrite Nat.add_0_r. now left.
  - simpl in H. simpl.
    replace (j0 + S j)%nat with (S j0 + j)%nat by lia.
    destruct (negb (k' =? "id")); [right|]; now apply IH.
Qed.

(** C5 (as the code has it). getInsert writes the clock's reading for the
    created and for the updated column, whatever the payload holds under
    those keys. getUpdate does so for updated only: the created column is
    assigned the literal of the payload's own value. *)
Theorem timestamps_from_clock (now : Clock) (h : Handler) (i o : resource.Item) :
  pgsql.getInsert now h i
  = Ok (insertText (tableName h)
                   ("etag" :: map fst (resource.Payload i))
                   (quoted (resource.ETag i) :: insertValues now 0 (resource.Payload i)))
  /\ pgsql.getUpdate now h i o
     = Ok (updateText (tableName h)
                      (("etag=" ++ quoted (resource.ETag i))
                         :: updateAssignments now 0 (resource.Payload i))
                      (literal (resource.ID o)) (quoted (resource.ETag o)))
  /\ (forall j k v,
        nth_error (resource.Payload i) j = Some (k, v) ->
        k = "created" \/ k = "updated" ->
        nth_error (map fst (resource.Payload i)) j = Some k
        /\ nth_error (insertValues now 0 (resource.Payload i)) j = Some (quoted (now j)))
  /\ (forall j v,
        nth_error (resource.Payload i) j = Some ("updated", v) ->
        List.In ("updated=" ++ quoted (now j))
                (updateAssignments now 0 (resource.Payload i)))
  /\ (forall j v,
        nth_error (resource.Payload i) j = Some ("created", v) ->
        List.In ("created=" ++ literal v)
                (updateAssignments now 0 (resource.Payload i))).
Proof.
  split; [apply getInsert_text|]. split; [apply getUpdate_text|]. split; [|split].
  - intros j k v H Hk. split.
    + now rewrite nth_error_map, H.
    + rewrite (insertValues_nth now _ 0 _ H). unfold insertValue. cbn [fst snd plus].
      now destruct Hk as [-> | ->].
  - intros j v H.
    exact (updateAssignments_nth now _ 0 _ H ltac:(discriminate)).
  - intros j v H.
    exact (updateAssignments_nth now _ 0 _ H ltac:(discriminate)).
Qed.

Lemma timestamps_from_clock_witness :
  nth_error (insertValues noon 0 (resource.Payload forgedItem)) 0
  = Some "'2018-02-27T12:00:00Z'"
  /\ List.In "updated='2018-02-27T12:00:00Z'"
             (updateAssignments noon 0 (resource.Payload forgedItem))
  /\ List.In "created='1999-01-01T00:00:00Z'"
             (updateAssignments noon 0 (resource.Payload forgedItem)).
Proof.
  pose proof (timestamps_from_clock noon {| tableName := "users" |} forgedItem storedItem)
    as (_ & _ & Hins & Hupd & Hcre).
  split; [|split].
  - exact (proj2 (Hins 0%nat "created" (VString "1999-01-01T00:00:00Z")
                       eq_refl (or_introl eq_refl))).
  - exact (Hupd 2%nat (VString "1999-01-01T00:00:00Z") eq_refl).
  - exact (Hcre 0%nat (VString "1999-01-01T00:00:00Z") eq_refl).
Defined.

(** On update the caller's created value reaches the statement. *)
Lemma update_created_counterexample :
  pgsql.getUpdate noon {| tableName := "users" |} forgedItem storedItem
  = Ok ("UPDATE users SET etag='e2',created='1999-01-01T00:00:00Z',name='bob',"
          ++ "updated='2018-02-27T12:00:00Z' WHERE id='u1' AND etag='e1';")
  /\ "'1999-01-01T00:00:00Z'" <> quoted (noon 0%nat).
Proof. split; [reflexivity | discriminate]. Qed.

(** *** The columns of an INSERT *)

Lemma mapSet_keys (k k' : string) (v : Value) (m : Map) :
  List.In k (map fst (mapSet k' v m)) <-> k = k' \/ List.In k (map fst m).
Proof.
  induction m as [|[k0 v0] m IH]; simpl.
  - intuition.
  - destruct (String.eqb_spec k0 k') as [->|Hne]; simpl.
    + intuition.
    + rewrite IH. intuition.
Qed.

Lemma newSQLItem_loop_keys (k : string) (l acc : Map) :
  List.In k (map fst (fold_left (fun p (kv : string * Value) =>
                                   let (k, v) := kv in
                                   if negb (k =? "id") then mapSet k v p else p)
                                l acc))
  <-> List.In k (map fst acc) \/ (k <> "id" /\ List.In k (map fst l)).
Proof.
  revert acc. induction l as [|[k0 v0] l IH]; intros acc; simpl.
  - intuition.
  - rewrite IH. destruct (String.eqb_spec k0 "id") as [->|Hne]; simpl.
    + intuition congruence.
    + rewrite mapSet_keys. intuition congruence.
Qed.

(** newSQLItem keeps every key of the payload but id. *)
Lemma newSQLItem_keys (i : resource.Item) (k : string) :
  List.In k (map fst (pgsql2.sPayload (pgsql2.newSQLItem i)))
  <-> k <> "id" /\ List.In k (map fst (resource.Payload i)).
Proof.
  unfold pgsql2.newSQLItem. cbn [pgsql2.sPayload].
  rewrite newSQLItem_loop_keys. simpl. intuition.
Qed.

(** C6 (as the code has it). getInsert lists the etag and every key of the
    payload as columns, id among them when the payload has it. The
    statement insertItems prepares for the item newSQLItem makes, in
    whatever order the copied payload is visited, lists the etag and the
    payload keys other than id, and never id. *)
Theorem insert_columns (now : Clock) (h : Handler) (i : resource.Item) :
  pgsql.getInsert now h i
  = Ok (insertText (tableName h)
                   ("etag" :: map fst (resource.Payload i))
                   (quoted (resource.ETag i) :: insertValues now 0 (resource.Payload i)))
  /\ (forall p : Map,
        Permutation p (pgsql2.sPayload (pgsql2.newSQLItem i)) ->
        pgsql2.insertStatement
          h {| pgsql2.sID := resource.ID i; pgsql2.sETag := resource.ETag i;
               pgsql2.sUpdated := resource.Updated i; pgsql2.sPayload := p |}
        = Ok (insertReturningText
                (tableName h)
                ("etag" :: map fst p)
                (quoted (resource.ETag i) :: map (fun kv => literal (snd kv)) p))
        /\ ~ List.In "id" ("etag" :: map fst p)
        /\ (forall k, List.In k (map fst p)
                      <-> k <> "id" /\ List.In k (map fst (resource.Payload i)))).
Proof.
  split; [apply getInsert_text|]. intros p Hp.
  assert (Hkeys : forall k, List.In k (map fst p)
                            <-> k <> "id" /\ List.In k (map fst (resource.Payload i))).
  { intros k. rewrite <- newSQLItem_keys. split; apply Permutation_in.
    - now apply Permutation_map.
    - now apply Permutation_map, Permutation_sym. }
  split; [apply insertStatement_text|]. split; [|exact Hkeys].
  intros [H|H]; [discriminate|]. apply Hkeys in H. now destruct H.
Qed.

Lemma insert_columns_witness :
  pgsql2.insertStatement {| tableName := "users" |} (pgsql2.newSQLItem itemWithId)
  = Ok "INSERT INTO users(etag, name)VALUES('e1', 'bob') RETURNING id"
  /\ ~ List.In "id" ["etag"; "name"].
Proof.
  pose proof (proj2 (insert_columns noon {| tableName := "users" |} itemWithId)
                    [("name", VString "bob")] (Permutation_refl _))
    as (Hstmt & Hid & _).
  split; [exact Hstmt | exact Hid].
Defined.

(** getInsert names the id column when the payload has the key. *)
Lemma insert_id_counterexample :
  pgsql.getInsert noon {| tableName := "users" |} itemWithId
  = Ok "INSERT INTO users(etag,id,name) VALUES('e1','u1','bob');"
  /\ List.In "id" ("etag" :: map fst (resource.Payload itemWithId)).
Proof. split; [reflexivity | simpl; auto]. Qed.

(** *** Errors of Update, Delete and Insert *)

Section AnyDriver.

Context {DB : Type} {driver : Driver DB}.

(** insertItems maps the duplicate-key text of the driver to ErrConflict. *)
Lemma insertItems_duplicate_key (h : Handler) (i : pgsql2.sqlItem)
      (items : list pgsql2.sqlItem) (db : DB) (e : error) :
  snd (Begin db) = None ->
  (forall q d, snd (QueryRowScanInt Tx q [] d) = Err e) ->
  Contains (Sprintln e) "pq: duplicate key value violates unique constraint" = true ->
  snd (pgsql2.insertItems h (i :: items) db) = Err ErrConflict.
Proof.
  intros Hb Hq He. cbn [pgsql2.insertItems].
  destruct (Begin db) as [db1 eb]. simpl in Hb. subst eb.
  rewrite insertStatement_text.
  match goal with |- context [QueryRowScanInt Tx ?q [] db1] =>
    pose proof (Hq q db1) as H1; destruct (QueryRowScanInt Tx q [] db1) as [db2 r]
  end.
  simpl in H1. subst r. now rewrite He.
Qed.

Lemma rows_loop_length (cols : list string) (scans : list (result (list Cell)))
      (raw0 raw : list Map) :
  rangeM (fun raw scan =>
            rowVals <- scan ;; Ok (raw ++ [pgsql.rowMapOf cols rowVals])%list)
         scans raw0 = Ok raw ->
  List.length raw = (List.length raw0 + List.length scans)%nat.
Proof.
  revert raw0. induction scans as [|scan scans IH]; intros raw0; simpl.
  - intros [= <-]. lia.
  - destruct scan as [rowVals| |]; simpl; try discriminate.
    intros H. apply IH in H. rewrite H, length_app. simpl. lia.
Qed.

End AnyDriver.

Lemma items_loop_length (now : Clock) (rows : list Map)
      (items0 items : list resource.Item) (i0 i : nat) :
  rangeM (fun (st : list resource.Item * nat) (r : Map) =>
            let (items, i) := st in
            item <- pgsql.newItem (now i) r ;;
            Ok (items ++ [item], S i))%list
         rows (items0, i0) = Ok (items, i) ->
  List.length items = (List.length items0 + List.length rows)%nat.
Proof.
  revert items0 i0. induction rows as [|r rows IH]; intros items0 i0; simpl.
  - intros [= <- _]. lia.
  - destruct (pgsql.newItem (now i0) r) as [item| |]; simpl; try discriminate.
    intros H. apply IH in H. rewrite H, length_app. simpl. lia.
Qed.

(** The list newItemList returns has one item per row, and Total is the
    number of rows. *)
Lemma newItemList_total (now : Clock) (rows : list Map) (offset : Z)
      (l : resource.ItemList) :
  pgsql.newItemList now rows offset = Ok l ->
  resource.Total l = Z.of_nat (List.length rows)
  /\ List.length (resource.Items l) = List.length rows.
Proof.
  unfold pgsql.newItemList.
  destruct (rangeM _ rows ([], 0%nat)) as [[items i]| |] eqn:E; simpl; try discriminate.
  intros [= <-]. simpl. split; [reflexivity|].
  now apply items_loop_length in E.
Qed.

(** C7. With no row for the identifier, the row query of compareEtags
    reports sql.ErrNoRows. Update and Delete of pgsql.go roll back and
    return that error as it is. Update and Delete of the other revision,
    whose compareEtags drops the error and compares the empty etag, return
    ErrConflict. Neither returns ErrNotFound. *)
Theorem missing_row_errors {DB : Type} {driver : Driver DB}
        (now : Clock) (h : Handler) (item original : resource.Item) (db db1 : DB) :
  Begin db = (db1, None) ->
  (forall db2,
      QueryRowScanString
        Session
        ("SELECT etag FROM " ++ tableName h ++ " WHERE id='"
           ++ fmtV (resource.ID original) ++ "'")
        [] db1 = (db2, Err ErrNoRows) ->
      pgsql.Update now h item original db = (Rollback db2, Err ErrNoRows)
      /\ pgsql.Delete h original db = (Rollback db2, Err ErrNoRows))
  /\ (forall db2 db3 db4,
         Begin db1 = (db2, None) ->
         QueryRowScanString
           Tx "SELECT etag FROM $1 WHERE id='$2'"
           [VString (tableName h); resource.ID original] db2 = (db3, Err ErrNoRows) ->
         Commit db3 = (db4, None) ->
         resource.ETag original <> "" ->
         pgsql2.Update now h item original db = (Rollback db4, Err ErrConflict)
         /\ pgsql2.Delete h original db = (Rollback db4, Err ErrConflict)).
Proof.
  intros Hb. split.
  - intros db2 Hq. unfold pgsql.Update, pgsql.Delete, pgsql.compareEtags.
    rewrite Hb, Hq. split; reflexivity.
  - intros db2 db3 db4 Hb1 Hq Hc He.
    unfold pgsql2.Update, pgsql2.Delete, pgsql2.compareEtags.
    rewrite Hb, Hb1, Hq, Hc. unfold neqIface.
    replace ("" =? resource.ETag original) with false
      by (symmetry; apply String.eqb_neq; congruence).
    split; reflexivity.
Qed.

Lemma missing_row_errors_witness :
  (pgsql.Update (driver := emptyTable) noon {| tableName := "users" |}
                forgedItem storedItem 0%nat
   = (3%nat, Err ErrNoRows)
   /\ pgsql.Delete (driver := emptyTable) {| tableName := "users" |} storedItem 0%nat
      = (3%nat, Err ErrNoRows))
  /\ (pgsql2.Update (driver := emptyTable) noon {| tableName := "users" |}
                    forgedItem storedItem 0%nat
      = (5%nat, Err ErrConflict)
      /\ pgsql2.Delete (driver := emptyTable) {| tableName := "users" |} storedItem 0%nat
         = (5%nat, Err ErrConflict)).
Proof.
  pose proof (@missing_row_errors nat emptyTable noon {| tableName := "users" |}
                forgedItem storedItem 0%nat 1%nat eq_refl) as [H1 H2].
  split.
  - exact (H1 2%nat eq_refl).
  - exact (H2 2%nat 3%nat 4%nat eq_refl eq_refl eq_refl ltac:(discriminate)).
Defined.

(** C8. When the driver reports a duplicate key for the statement of the
    first item, Insert of pgsql.go rolls back and returns the driver's
    error as it is, which is not ErrConflict; Insert of the other
    revision, through insertItems, returns ErrConflict. *)
Theorem duplicate_key_errors {DB : Type} {driver : Driver DB}
        (now : nat -> Clock) (h : Handler)
        (i : resource.Item) (items : list resource.Item) (db db1 : DB) (e : error) :
  Begin db = (db1, None) ->
  Contains (Sprintln e) "pq: duplicate key value violates unique constraint" = true ->
  (forall db2,
      Exec Session
           (insertText (tableName h)
                       ("etag" :: map fst (resource.Payload i))
                       (quoted (resource.ETag i)
                          :: insertValues (now 0%nat) 0 (resource.Payload i)))
           db1 = (db2, Err e) ->
      pgsql.Insert now h (i :: items) db = (Rollback db2, Err e) /\ e <> ErrConflict)
  /\ ((forall q d, snd (QueryRowScanInt Tx q [] d) = Err e) ->
      snd (pgsql2.Insert None h (i :: items) db) = Err ErrConflict).
Proof.
  intros Hb He. split.
  - intros db2 Hx. split.
    + unfold pgsql.Insert. rewrite Hb. cbn [pgsql.insertLoop].
      rewrite getInsert_text, Hx. reflexivity.
    + intros ->. discriminate He.
  - intros Hq. unfold pgsql2.Insert.
    assert (Hb' : snd (Begin db) = None) by now rewrite Hb.
    pose proof (insertItems_duplicate_key h (pgsql2.newSQLItem i)
                  (map pgsql2.newSQLItem items) db Hb' Hq He) as H.
    cbn [map]. destruct (pgsql2.insertItems h _ db) as [d r].
    simpl in H. now subst r.
Qed.

Lemma duplicate_key_errors_witness :
  (pgsql.Insert (driver := occupiedTable) (fun _ => noon) {| tableName := "users" |}
                [itemWithId] 0%nat
   = (3%nat, Err duplicateKey)
   /\ duplicateKey <> ErrConflict)
  /\ snd (pgsql2.Insert (driver := occupiedTable) None {| tableName := "users" |}
                        [itemWithId] 0%nat)
     = Err ErrConflict.
Proof.
  pose proof (@duplicate_key_errors nat occupiedTable (fun _ => noon)
                {| tableName := "users" |} itemWithId [] 0%nat 1%nat duplicateKey
                eq_refl eq_refl) as [H1 H2].
  split.
  - exact (H1 2%nat eq_refl).
  - exact (H2 (fun _ _ => eq_refl)).
Defined.

(** *** Find *)

(** C10. The list a successful Find returns has as its Total the number of
    its items, which is the number of rows the one SELECT of getSelect
    (with its LIMIT and OFFSET) yielded; no other query is made. *)
Theorem find_total {DB : Type} {driver : Driver DB}
        (now : Clock) (h : Handler) (q : query.Query) (db db' : DB)
        (l : resource.ItemList) :
  pgsql.Find now h q db = (db', Ok l) ->
  resource.Total l = Z.of_nat (List.length (resource.Items l))
  /\ exists qry rows,
      pgsql.getSelect h q = Ok qry
      /\ Query qry db = (db', Ok rows)
      /\ resource.Total l = Z.of_nat (List.length (Next rows)).
Proof.
  unfold pgsql.Find.
  destruct (pgsql.getSelect h q) as [qry| |]; try discriminate.
  destruct (Query qry db) as [db1 [rows| |]] eqn:EQ; try discriminate.
  intros [= <- H].
  destruct (Columns rows) as [cols| |]; simpl in H; try discriminate.
  destruct (rangeM _ (Next rows) []) as [raw| |] eqn:ER; simpl in H; try discriminate.
  destruct (RowsErr rows); try discriminate.
  apply newItemList_total in H. destruct H as [HT HL].
  apply rows_loop_length in ER. simpl in ER.
  split; [now rewrite HT, HL|].
  exists qry, rows. split; [reflexivity|]. split; [exact EQ|]. now rewrite HT, ER.
Qed.

Lemma find_total_witness :
  exists l,
    pgsql.Find (driver := pagedTable) noon {| tableName := "users" |} secondPage 0%nat
    = (1%nat, Ok l)
    /\ resource.Total l = 2%Z
    /\ List.length (resource.Items l) = 2%nat.
Proof.
  eexists. split; [reflexivity|].
  pose proof (@find_total nat pagedTable noon {| tableName := "users" |} secondPage
                0%nat 1%nat _ eq_refl) as [HT _].
  split; [exact HT | reflexivity].
Defined.

(** *** Totality of the translation *)

Lemma valuesToString_loop (vs : list Value) (str : string) :
  rangeM (fun str v => s <- valueToString v ;; Ok (str ++ s ++ ",")) vs str
  = Ok (str ++ suffixed "," (map literal vs)).
Proof.
  revert str. induction vs as [|v vs IH]; intros str.
  - simpl. now rewrite append_nil_r.
  - cbn [rangeM]. rewrite valueToString_Ok. cbn [bind]. fold (literal v).
    rewrite IH. cbn [map suffixed]. now rewrite !append_assoc.
Qed.

(** A membership list that is not empty is written comma separated. *)
Lemma valuesToString_text (vs : list Value) :
  vs <> [] -> valuesToString vs = Ok (join "," (map literal vs)).
Proof.
  intros H. unfold valuesToString. rewrite valuesToString_loop. cbn [bind].
  rewrite (@slice_suffixed "" "," _ 1%Z); [reflexivity| |reflexivity].
  now destruct vs.
Qed.

Lemma translateEach_returns (t : list Expression) :
  Forall (fun e => wellFormed e = true -> returns (translateExpression "" e)) t ->
  forallb wellFormed t = true ->
  (exists subs, translateEach t = Ok subs) \/ translateEach t = Err ErrNotImplemented.
Proof.
  induction 1 as [|e t He _ IH]; intros Hwf.
  - left. now exists [].
  - simpl in Hwf. apply andb_prop in Hwf. destruct Hwf as [Hwe Hwt].
    cbn [translateEach]. rewrite translatePredicate_single.
    destruct (He Hwe) as [[s ->] | ->]; [|now right].
    destruct (IH Hwt) as [[subs ->] | ->]; [left|now right].
    now exists (s :: subs).
Qed.

(** A well-formed expression returns. *)
Lemma translateExpression_returns (e : Expression) :
  wellFormed e = true -> returns (translateExpression "" e).
Proof.
  revert e.
  apply (@Expression_tree_ind
           (fun e => wellFormed e = true -> returns (translateExpression "" e)));
    [intros t IH | intros t IH | intros e].
  - cbn [wellFormed]. intros H. apply andb_prop in H. destruct H as [Hne Hwf].
    apply nonempty_length in Hne.
    rewrite (proj1 (translateExpression_group "" Hne)).
    destruct (translateEach_returns IH Hwf) as [[subs ->] | ->]; [left|now right].
    now eexists.
  - cbn [wellFormed]. intros H. apply andb_prop in H. destruct H as [Hne Hwf].
    apply nonempty_length in Hne.
    rewrite (proj2 (translateExpression_group "" Hne)).
    destruct (translateEach_returns IH Hwf) as [[subs ->] | ->]; [left|now right].
    now eexists.
  - destruct e as [t|t|f vs|f vs|f v|f v|f v|f v|f v|f v| ]; try exact I;
      cbn [wellFormed]; intros H;
      try (apply nonempty_length in H; cbn [translateExpression];
           rewrite (valuesToString_text H); left; now eexists);
      try (cbn [translateExpression]; rewrite valueToString_Ok;
           left; destruct v; now eexists).
    now right.
Qed.

Lemma translateEach_known (t : list Expression) :
  Forall (fun e => known e = true ->
                   if wellFormed e then exists s, translateExpression "" e = Ok s
                   else translateExpression "" e = Panic) t ->
  forallb known t = true ->
  if forallb wellFormed t then exists subs, translateEach t = Ok subs
  else translateEach t = Panic.
Proof.
  induction 1 as [|e t He _ IH]; intros Hk.
  - now exists [].
  - simpl in Hk. apply andb_prop in Hk. destruct Hk as [Hke Hkt].
    specialize (He Hke). specialize (IH Hkt).
    cbn [translateEach forallb]. rewrite translatePredicate_single.
    destruct (wellFormed e); cbn [andb].
    + destruct He as [s ->]. cbn [bind].
      destruct (forallb wellFormed t).
      * destruct IH as [subs ->]. now eexists.
      * now rewrite IH.
    + now rewrite He.
Qed.

(** With a case for every node, well-formedness decides between a text
    and a panic. *)
Lemma translateExpression_known (e : Expression) :
  known e = true ->
  if wellFormed e then exists s, translateExpression "" e = Ok s
  else translateExpression "" e = Panic.
Proof.
  revert e.
  apply (@Expression_tree_ind
           (fun e => known e = true ->
                     if wellFormed e then exists s, translateExpression "" e = Ok s
                     else translateExpression "" e = Panic));
    [intros t IH | intros t IH | intros e].
  - cbn [known wellFormed]. intros Hk. destruct t as [|e t]; [reflexivity|].
    pose proof (translateEach_known IH Hk) as H.
    rewrite (proj1 (@translateExpression_group "" (e :: t) ltac:(discriminate))).
    cbn [List.length Nat.eqb negb andb].
    destruct (forallb wellFormed (e :: t)).
    + destruct H as [subs ->]. now eexists.
    + now rewrite H.
  - cbn [known wellFormed]. intros Hk. destruct t as [|e t]; [reflexivity|].
    pose proof (translateEach_known IH Hk) as H.
    rewrite (proj2 (@translateExpression_group "" (e :: t) ltac:(discriminate))).
    cbn [List.length Nat.eqb negb andb].
    destruct (forallb wellFormed (e :: t)).
    + destruct H as [subs ->]. now eexists.
    + now rewrite H.
  - destruct e as [t|t|f vs|f vs|f v|f v|f v|f v|f v|f v| ]; try exact I;
      intros Hk; try discriminate;
      try (destruct vs as [|v vs]; [reflexivity|];
           cbn [wellFormed List.length Nat.eqb negb translateExpression];
           rewrite (@valuesToString_text (v :: vs)) by discriminate; now eexists);
      try (cbn [wellFormed translateExpression]; rewrite valueToString_Ok;
           destruct v; now eexists).
Qed.

Lemma translatePredicate_cons (e : Expression) (p : query.Predicate) :
  translatePredicate (e :: p)
  = (a <- translateExpression "" e ;; b <- translatePredicate p ;; Ok (a ++ b)).
Proof.
  change (e :: p) with ([e] ++ p)%list.
  now rewrite translatePredicate_app, translatePredicate_single.
Qed.

(** C9. A predicate in which every group has a child and every membership
    list a value is translated without a panic: the translator returns a
    text, or ErrNotImplemented for a node it has no case for. An empty
    group or an empty membership list makes it slice below zero and panic,
    and when every node has a case, a predicate that is not well-formed
    always does. *)
Theorem translation_total (p : query.Predicate) :
  (forallb wellFormed p = true -> returns (translatePredicate p))
  /\ (forallb known p = true ->
      if forallb wellFormed p then exists s, translatePredicate p = Ok s
      else translatePredicate p = Panic)
  /\ (forall str Field,
        translateExpression str (query.And []) = Panic
        /\ translateExpression str (query.Or []) = Panic
        /\ translateExpression str (query.In Field []) = Panic
        /\ translateExpression str (query.NotIn Field []) = Panic)
  /\ (len "" - 5 < 0 /\ len "" - 4 < 0 /\ len "" - 1 < 0)%Z.
Proof.
  split; [|split; [|split]].
  - induction p as [|e p IH]; intros Hwf.
    + left. now exists "".
    + simpl in Hwf. apply andb_prop in Hwf. destruct Hwf as [Hwe Hwp].
      rewrite translatePredicate_cons.
      destruct (translateExpression_returns e Hwe) as [[a ->] | ->]; [|now right].
      destruct (IH Hwp) as [[b ->] | ->]; [left|now right].
      now eexists.
  - induction p as [|e p IH]; intros Hk.
    + now exists "".
    + simpl in Hk. apply andb_prop in Hk. destruct Hk as [Hke Hkp].
      pose proof (translateExpression_known e Hke) as He. specialize (IH Hkp).
      rewrite translatePredicate_cons. cbn [forallb].
      destruct (wellFormed e); cbn [andb].
      * destruct He as [a ->]. cbn [bind].
        destruct (forallb wellFormed p).
        -- destruct IH as [b ->]. now eexists.
        -- now rewrite IH.
      * now rewrite He.
  - intros str Field. repeat split; reflexivity.
  - cbv. repeat split; reflexivity.
Qed.

Lemma translation_total_witness :
  returns (translatePredicate
             [query.And [query.In "id" [VInt 1; VInt 2]; query.Other]])
  /\ (exists s, translatePredicate
                  [query.Or [query.And [query.NotIn "id" [VInt 1]];
                             query.LowerOrEqual "age" (VInt 3)]] = Ok s)
  /\ translatePredicate
       [query.Equal "a" (VInt 1); query.And [query.Or []]] = Panic.
Proof.
  split; [|split].
  - exact (proj1 (translation_total
                    [query.And [query.In "id" [VInt 1; VInt 2]; query.Other]]) eq_refl).
  - exact (proj1 (proj2 (translation_total
                           [query.Or [query.And [query.NotIn "id" [VInt 1]];
                                      query.LowerOrEqual "age" (VInt 3)]])) eq_refl).
  - exact (proj1 (proj2 (translation_total
                           [query.Equal "a" (VInt 1); query.And [query.Or []]])) eq_refl).
Defined.

(** ** Further properties of the translation and of the handler *)

(** X1. An ordered comparison translates to the field, the operator and
    the encoder's literal of the value. *)
Theorem ordered_comparisons (Field : string) (v : Value) :
  translatePredicate [query.GreaterThan Field v] = Ok (Field ++ " > " ++ literal v)
  /\ translatePredicate [query.GreaterOrEqual Field v] = Ok (Field ++ " >= " ++ literal v)
  /\ translatePredicate [query.LowerThan Field v] = Ok (Field ++ " < " ++ literal v)
  /\ translatePredicate [query.LowerOrEqual Field v] = Ok (Field ++ " <= " ++ literal v).
Proof.
  rewrite !translatePredicate_single. cbn [translateExpression].
  rewrite valueToString_Ok. fold (literal v). repeat split; reflexivity.
Qed.

(** X2. A membership test on a list that is not empty translates to the
    field, IN (NOT IN) and the literals of the values, comma separated,
    between parentheses. *)
Theorem membership_translation (Field : string) (vs : list Value) :
  vs <> [] ->
  translatePredicate [query.In Field vs]
  = Ok (Field ++ " IN (" ++ join "," (map literal vs) ++ ")")
  /\ translatePredicate [query.NotIn Field vs]
     = Ok (Field ++ " NOT IN (" ++ join "," (map literal vs) ++ ")").
Proof.
  intros H. rewrite !translatePredicate_single. cbn [translateExpression].
  rewrite (valuesToString_text H). split; reflexivity.
Qed.

Lemma membership_translation_witness :
  translatePredicate [query.In "id" [VString "a"; VInt 2]] = Ok "id IN ('a',2)"
  /\ translatePredicate [query.NotIn "id" [VString "a"; VInt 2]] = Ok "id NOT IN ('a',2)".
Proof.
  exact (@membership_translation "id" [VString "a"; VInt 2] ltac:(discriminate)).
Defined.

Lemma getSort_loop (l : list query.SortField) (str : string) :
  rangeM (fun str sort =>
            let str := if query.Reversed sort
                       then str ++ query.Name sort ++ " DESC"
                       else str ++ query.Name sort in
            Ok (str ++ ",")) l str
  = Ok (str ++ suffixed "," (map sortKey l)).
Proof.
  revert str. induction l as [|f l IH]; intros str.
  - simpl. now rewrite append_nil_r.
  - cbn [rangeM bind]. rewrite IH. cbn [map suffixed]. unfold sortKey.
    destruct (query.Reversed f); now rewrite !append_assoc.
Qed.

(** X3. getSort writes id for an empty sort list, and otherwise the sort
    fields in order, comma separated, each followed by DESC when it is
    reversed; getSelect writes no ORDER BY clause for a nil sort list. *)
Theorem sort_translation (h : Handler) (q : query.Query) :
  (query.Sort q = Some [] -> getSort q = Ok "id")
  /\ (forall l, l <> [] -> query.Sort q = Some l ->
                getSort q = Ok (join "," (map sortKey l)))
  /\ (query.Sort q = None ->
      pgsql.getSelect h q
      = (qry <- getQuery q ;;
         Ok ("SELECT * FROM " ++ tableName h
               ++ (if (qry =? "") then "" else " WHERE " ++ qry)
               ++ windowClause q ++ ";"))).
Proof.
  split; [|split].
  - unfold getSort. now intros ->.
  - intros l Hl Hq. unfold getSort. rewrite Hq.
    destruct l as [|f l]; [congruence|]. cbn [List.length Nat.eqb].
    rewrite getSort_loop. cbn [bind].
    rewrite (@slice_suffixed "" "," _ 1%Z); [reflexivity | simpl; discriminate | reflexivity].
  - intros Hq. rewrite getSelect_shape. unfold orderClause. rewrite Hq.
    apply bind_ext. intros qry. reflexivity.
Qed.

Lemma sort_translation_witness :
  getSort {| query.Predicate_ := [];
             query.Sort := Some [{| query.Name := "name"; query.Reversed := true |};
                                 {| query.Name := "age"; query.Reversed := false |}];
             query.Window_ := None |}
  = Ok "name DESC,age".
Proof.
  exact (proj1 (proj2 (sort_translation
                         {| tableName := "users" |}
                         {| query.Predicate_ := [];
                            query.Sort := Some [{| query.Name := "name";
                                                   query.Reversed := true |};
                                                {| query.Name := "age";
                                                   query.Reversed := false |}];
                            query.Window_ := None |}))
               [{| query.Name := "name"; query.Reversed := true |};
                {| query.Name := "age"; query.Reversed := false |}]
               ltac:(discriminate) eq_refl).
Defined.

(** X4. When the row of the identifier holds another etag than the
    original's, Update and Delete of pgsql.go roll back and return
    ErrConflict. *)
Theorem stale_etag_conflict {DB : Type} {driver : Driver DB}
        (now : Clock) (h : Handler) (item original : resource.Item)
        (db db1 db2 : DB) (etag : string) :
  Begin db = (db1, None) ->
  QueryRowScanString
    Session
    ("SELECT etag FROM " ++ tableName h ++ " WHERE id='"
       ++ fmtV (resource.ID original) ++ "'")
    [] db1 = (db2, Ok etag) ->
  etag <> resource.ETag original ->
  pgsql.Update now h item original db = (Rollback db2, Err ErrConflict)
  /\ pgsql.Delete h original db = (Rollback db2, Err ErrConflict).
Proof.
  intros Hb Hq He. unfold pgsql.Update, pgsql.Delete, pgsql.compareEtags.
  rewrite Hb, Hq. unfold neqIface.
  replace (etag =? resource.ETag original) with false
    by (symmetry; now apply String.eqb_neq).
  split; reflexivity.
Qed.

Lemma stale_etag_conflict_witness :
  pgsql.Update (driver := occupiedTable) noon {| tableName := "users" |}
               storedItem forgedItem 0%nat
  = (3%nat, Err ErrConflict)
  /\ pgsql.Delete (driver := occupiedTable) {| tableName := "users" |} forgedItem 0%nat
     = (3%nat, Err ErrConflict).
Proof.
  exact (@stale_etag_conflict nat occupiedTable noon {| tableName := "users" |}
           storedItem forgedItem 0%nat 1%nat 2%nat "e1"
           eq_refl eq_refl ltac:(discriminate)).
Defined.

(** X5. The expressions at the top of a predicate are translated one by
    one and their texts written one after the other, with nothing between
    them. *)
Theorem toplevel_concatenation (p : query.Predicate) :
  translatePredicate p = (subs <- translateEach p ;; Ok (join "" subs)).
Proof.
  induction p as [|e p IH]; [reflexivity|].
  rewrite translatePredicate_cons. cbn [translateEach].
  rewrite translatePredicate_single.
  destruct (translateExpression "" e) as [a| |]; cbn [bind]; try reflexivity.
  rewrite IH. destruct (translateEach p) as [subs| |]; cbn [bind]; try reflexivity.
  destruct subs as [|b subs]; [now rewrite append_nil_r | reflexivity].
Qed.

Lemma sliceTo_not_err (s : string) (hi : Z) (e : error) : sliceTo s hi <> Err e.
Proof. unfold sliceTo. now destruct ((hi <? 0)%Z || (len s <? hi)%Z). Qed.

Lemma translateEach_err (t : list Expression) (e : error) :
  translateEach t = Err e ->
  exists c, List.In c t /\ translateExpression "" c = Err e.
Proof.
  induction t as [|c t IH]; [discriminate|].
  cbn [translateEach]. rewrite translatePredicate_single.
  destruct (translateExpression "" c) as [sb| |] eqn:Ec; cbn [bind]; try discriminate.
  - destruct (translateEach t) as [rest| |]; cbn [bind]; try discriminate.
    intros H. destruct (IH H) as (c' & Hin & Hc'). exists c'. split; [now right | exact Hc'].
  - intros [= <-]. exists c. split; [now left | exact Ec].
Qed.

Lemma group_err (sep : string) (k : Z) (t : list Expression) (str : string) (e : error) :
  (s <- rangeM (fun s subExp =>
                  sb <- translatePredicate [subExp] ;; Ok (s ++ sb ++ sep)) t "" ;;
   s' <- sliceTo s (len s - k) ;;
   Ok (str ++ "(" ++ s' ++ ")")) = Err e ->
  translateEach t = Err e.
Proof.
  rewrite groupLoop.
  destruct (translateEach t) as [subs| |]; cbn [bind];
    [ | now intros [= ->] | discriminate ].
  destruct (sliceTo _ _) as [s'| |] eqn:Es; cbn [bind]; try discriminate.
  intros [= <-]. now apply sliceTo_not_err in Es.
Qed.

Lemma known_child (t : list Expression) (c : Expression) :
  List.In c t -> known c = false -> forallb known t = false.
Proof.
  intros Hin Hc. destruct (forallb known t) eqn:E; [|reflexivity].
  rewrite forallb_forall in E. now rewrite (E c Hin) in Hc.
Qed.

(** The only error of the translator is the one for a node it has no case
    for. *)
Lemma translateExpression_err (e : Expression) :
  forall str err,
    translateExpression str e = Err err -> err = ErrNotImplemented /\ known e = false.
Proof.
  revert e.
  apply (@Expression_tree_ind
           (fun e => forall str err,
                translateExpression str e = Err err ->
                err = ErrNotImplemented /\ known e = false));
    [intros t IH | intros t IH | intros e].
  - intros str err H. rewrite translateExpression_And in H. apply group_err in H.
    destruct (translateEach_err _ H) as (c & Hin & Hc).
    rewrite Forall_forall in IH. destruct (IH c Hin _ _ Hc) as [-> Hk].
    split; [reflexivity|]. cbn [known]. now apply (known_child t c).
  - intros str err H. rewrite translateExpression_Or in H. apply group_err in H.
    destruct (translateEach_err _ H) as (c & Hin & Hc).
    rewrite Forall_forall in IH. destruct (IH c Hin _ _ Hc) as [-> Hk].
    split; [reflexivity|]. cbn [known]. now apply (known_child t c).
  - destruct e as [t|t|f vs|f vs|f v|f v|f v|f v|f v|f v| ]; try exact I;
      intros str err; cbn [translateExpression];
      try (unfold valuesToString; rewrite valuesToString_loop; cbn [bind];
           destruct (sliceTo _ _) eqn:Es; try discriminate;
           now apply sliceTo_not_err in Es);
      try (rewrite valueToString_Ok; destruct v; discriminate).
    intros [= <-]. now split.
Qed.

Lemma translatePredicate_err (p : query.Predicate) (err : error) :
  translatePredicate p = Err err -> err = ErrNotImplemented /\ forallb known p = false.
Proof.
  induction p as [|e p IH]; [discriminate|].
  rewrite translatePredicate_cons. cbn [forallb].
  destruct (translateExpression "" e) as [a| |] eqn:Ee; cbn [bind]; try discriminate.
  - destruct (translatePredicate p) as [b| |]; cbn [bind]; try discriminate.
    intros H. destruct (IH H) as [-> Hk]. split; [reflexivity|].
    rewrite Hk. apply andb_false_r.
  - intros [= <-]. destruct (translateExpression_err e _ Ee) as [-> Hk].
    split; [reflexivity|]. now rewrite Hk.
Qed.

Lemma getSort_Ok (q : query.Query) : exists s, getSort q = Ok s.
Proof.
  unfold getSort. destruct (match query.Sort q with Some l => l | None => [] end) as [|f l].
  - now exists "id".
  - cbn [List.length Nat.eqb]. rewrite getSort_loop. cbn [bind].
    rewrite (@slice_suffixed "" "," _ 1%Z); [now eexists | simpl; discriminate | reflexivity].
Qed.

Lemma orderClause_Ok (q : query.Query) : exists s, orderClause q = Ok s.
Proof.
  unfold orderClause. destruct (query.Sort q); [|now exists ""].
  destruct (getSort_Ok q) as [s ->]. now eexists.
Qed.

(** X6. The statement builders of a query fail with ErrNotImplemented and
    with no other error, and only for a predicate holding a node the
    translator has no case for; Find and Clear then return that error
    without a call to the database. *)
Theorem only_not_implemented (h : Handler) (q : query.Query) (e : error) :
  (getQuery q = Err e ->
   e = ErrNotImplemented /\ forallb known (query.Predicate_ q) = false)
  /\ (pgsql.getSelect h q = Err e -> e = ErrNotImplemented)
  /\ (pgsql.getDelete h q = Err e -> e = ErrNotImplemented)
  /\ (getQuery q = Err e ->
      forall (a : Answers) (now : Clock),
        pgsql.Find (driver := recording a) now h q [] = ([], Err ErrNotImplemented)
        /\ pgsql.Clear (driver := recording a) h q [] = ([], Err ErrNotImplemented)).
Proof.
  split; [|split; [|split]].
  - apply translatePredicate_err.
  - rewrite getSelect_shape. destruct (getQuery q) as [qry| |] eqn:Eq;
      cbn [bind]; try discriminate.
    + destruct (orderClause_Ok q) as [o ->]. discriminate.
    + intros [= <-]. now apply translatePredicate_err in Eq.
  - unfold pgsql.getDelete. destruct (getQuery q) as [qry| |] eqn:Eq;
      cbn [bind]; try discriminate.
    intros [= <-]. now apply translatePredicate_err in Eq.
  - intros Hq a now. destruct (translatePredicate_err _ Hq) as [-> _].
    unfold pgsql.Find, pgsql.Clear, pgsql.getDelete. rewrite getSelect_shape, Hq.
    split; reflexivity.
Qed.

Lemma only_not_implemented_witness :
  let q := {| query.Predicate_ := [query.And [query.Equal "a" (VInt 1); query.Other]];
              query.Sort := None; query.Window_ := None |} in
  pgsql.Find (driver := recording agreeable) noon {| tableName := "users" |} q []
  = ([], Err ErrNotImplemented)
  /\ pgsql.Clear (driver := recording agreeable) {| tableName := "users" |} q []
     = ([], Err ErrNotImplemented).
Proof.
  exact (proj2 (proj2 (proj2 (only_not_implemented
                                {| tableName := "users" |}
                                {| query.Predicate_ :=
                                     [query.And [query.Equal "a" (VInt 1); query.Other]];
                                   query.Sort := None; query.Window_ := None |}
                                ErrNotImplemented)))
               eq_refl agreeable noon).
Defined.

(** X7. getSelect leaves a window with a negative limit out altogether,
    its offset included; for any other window it writes LIMIT and OFFSET
    both, after the ORDER BY clause. *)
Theorem window_clause (h : Handler) (p : query.Predicate)
        (sort : option (list query.SortField)) (w : query.Window) :
  let q := {| query.Predicate_ := p; query.Sort := sort; query.Window_ := Some w |} in
  ((query.Limit w < 0)%Z ->
   pgsql.getSelect h q
   = pgsql.getSelect h {| query.Predicate_ := p; query.Sort := sort;
                          query.Window_ := None |})
  /\ ((0 <= query.Limit w)%Z ->
      pgsql.getSelect h q
      = (qry <- getQuery q ;;
         order <- orderClause q ;;
         Ok ("SELECT * FROM " ++ tableName h
               ++ (if (qry =? "") then "" else " WHERE " ++ qry)
               ++ order
               ++ " LIMIT " ++ fmtInt (query.Limit w)
               ++ " OFFSET " ++ fmtInt (query.Offset w) ++ ";"))).
Proof.
  intros q. split; intros Hw; rewrite !getSelect_shape; unfold windowClause, q;
    cbn [query.Window_].
  - destruct (query.Limit w >=? 0)%Z eqn:E; [apply Z.geb_le in E; lia | reflexivity].
  - destruct (query.Limit w >=? 0)%Z eqn:E;
      [ | rewrite Z.geb_leb in E; apply Z.leb_gt in E; lia ].
    apply bind_ext. intros qry. apply bind_ext. intros order.
    now rewrite !append_assoc.
Qed.

Lemma window_clause_witness :
  pgsql.getSelect {| tableName := "users" |}
                  {| query.Predicate_ := []; query.Sort := None;
                     query.Window_ := Some {| query.Offset := 10; query.Limit := -1 |} |}
  = Ok "SELECT * FROM users;"
  /\ pgsql.getSelect {| tableName := "users" |}
                     {| query.Predicate_ := []; query.Sort := None;
                        query.Window_ := Some {| query.Offset := 0; query.Limit := 0 |} |}
     = Ok "SELECT * FROM users LIMIT 0 OFFSET 0;".
Proof.
  split.
  - rewrite (proj1 (window_clause {| tableName := "users" |} [] None
                                  {| query.Offset := 10; query.Limit := -1 |}));
      [reflexivity | simpl; lia].
  - rewrite (proj2 (window_clause {| tableName := "users" |} [] None
                                  {| query.Offset := 0; query.Limit := 0 |}));
      [reflexivity | simpl; lia].
Defined.

(** X8. The list a successful Find returns reports the offset of the
    query's window, also when a negative limit kept that offset out of the
    statement, and 0 for a query with no window. *)
Theorem find_offset {DB : Type} {driver : Driver DB}
        (now : Clock) (h : Handler) (q : query.Query) (db db' : DB)
        (l : resource.ItemList) :
  pgsql.Find now h q db = (db', Ok l) ->
  resource.Offset l = match query.Window_ q with
                      | Some w => query.Offset w
                      | None => 0%Z
                      end.
Proof.
  unfold pgsql.Find.
  destruct (pgsql.getSelect h q) as [qry| |]; try discriminate.
  destruct (Query qry db) as [db1 [rows| |]]; try discriminate.
  intros [= _ H].
  destruct (Columns rows) as [cols| |]; cbn [bind] in H; try discriminate.
  destruct (rangeM _ (Next rows) []) as [raw| |]; cbn [bind] in H; try discriminate.
  destruct (RowsErr rows); try discriminate.
  unfold pgsql.newItemList in H.
  destruct (rangeM _ raw ([], 0%nat)) as [st| |]; cbn [bind] in H; try discriminate.
  now injection H as <-.
Qed.

Lemma find_offset_witness :
  exists l,
    pgsql.Find (driver := pagedTable) noon {| tableName := "users" |}
               {| query.Predicate_ := []; query.Sort := None;
                  query.Window_ := Some {| query.Offset := 10; query.Limit := -1 |} |}
               0%nat
    = (1%nat, Ok l)
    /\ resource.Offset l = 10%Z.
Proof.
  eexists. split; [reflexivity|].
  exact (@find_offset nat pagedTable noon {| tableName := "users" |}
           {| query.Predicate_ := []; query.Sort := None;
              query.Window_ := Some {| query.Offset := 10; query.Limit := -1 |} |}
           0%nat 1%nat _ eq_refl).
Defined.

(** X9. getSelect of the revision that reads the window unguarded builds
    the statement of pgsql.go for a query with a window, and panics on the
    nil window of a query without one, once the predicate is translated. *)
Theorem unguarded_window (h : Handler) (q : query.Query) :
  (forall w, query.Window_ q = Some w -> pgsql1.getSelect h q = pgsql.getSelect h q)
  /\ (query.Window_ q = None ->
      pgsql1.getSelect h q = (qry <- getQuery q ;; Panic)
      /\ forall s, pgsql.getSelect h q = Ok s -> pgsql1.getSelect h q = Panic).
Proof.
  split.
  - intros w Hw. unfold pgsql1.getSelect, pgsql.getSelect. rewrite Hw.
    destruct (getQuery q) as [qry| |]; cbn [bind]; try reflexivity.
    destruct (query.Sort q); [destruct (getSort q)|]; cbn [bind]; try reflexivity;
      now destruct (query.Limit w >=? 0)%Z.
  - intros Hw.
    assert (H : pgsql1.getSelect h q = (qry <- getQuery q ;; Panic)).
    { unfold pgsql1.getSelect. rewrite Hw.
      destruct (getQuery q) as [qry| |]; cbn [bind]; try reflexivity.
      destruct (query.Sort q); [|reflexivity].
      destruct (getSort_Ok q) as [s ->]. reflexivity. }
    split; [exact H|]. intros s Hs. rewrite H.
    rewrite getSelect_shape in Hs. now destruct (getQuery q).
Qed.

Lemma unguarded_window_witness :
  pgsql1.getSelect {| tableName := "users" |} secondPage
  = Ok "SELECT * FROM users LIMIT 2 OFFSET 10;"
  /\ pgsql1.getSelect {| tableName := "users" |}
                      {| query.Predicate_ := []; query.Sort := None;
                         query.Window_ := None |}
     = Panic.
Proof.
  split.
  - rewrite (proj1 (unguarded_window {| tableName := "users" |} secondPage)
                   {| query.Offset := 10; query.Limit := 2 |} eq_refl).
    reflexivity.
  - exact (proj2 (proj2 (unguarded_window
                           {| tableName := "users" |}
                           {| query.Predicate_ := []; query.Sort := None;
                              query.Window_ := None |}) eq_refl)
                 "SELECT * FROM users;" eq_refl).
Defined.

(** *** Rows and items *)

Lemma mapGet_mapSet (k k' : string) (v : Value) (m : Map) :
  mapGet (mapSet k v m) k' = if (k =? k') then v else mapGet m k'.
Proof.
  induction m as [|[k0 v0] m IH]; cbn [mapSet mapGet]; [reflexivity|].
  destruct (String.eqb_spec k0 k) as [->|Hne]; cbn [mapGet].
  - now destruct (k =? k').
  - rewrite IH. destruct (String.eqb_spec k0 k') as [->|Hne'].
    + now replace (k =? k') with false by (symmetry; apply String.eqb_neq; congruence).
    + reflexivity.
Qed.


Lemma mapGet_absent (k : string) (m : Map) : hasKey k m = false -> mapGet m k = VNil.
Proof.
  unfold hasKey. induction m as [|[k0 v0] m IH]; cbn [existsb mapGet fst];
    [reflexivity|].
  destruct (k0 =? k); cbn [orb]; [discriminate | exact IH].
Qed.

Lemma hasKey_In (k : string) (m : Map) : hasKey k m = true <-> List.In k (map fst m).
Proof.
  unfold hasKey. induction m as [|[k0 v0] m IH]; cbn [existsb map fst List.In].
  - intuition discriminate.
  - rewrite orb_true_iff, IH, String.eqb_eq. reflexivity.
Qed.

Lemma rowMapOf_loop (c : string) (cols : list string) (cells : list Cell) (acc : Map) :
  mapGet (fold_left (fun rowMap (cv : string * Cell) =>
                       let v := match snd cv with
                                | CBytes b => VString b
                                | CValue v => v
                                end in
                       mapSet (fst cv) v rowMap)
                    (combine cols cells) acc) c
  = match lastCell c cols cells with
    | Some cell => cellValue cell
    | None => mapGet acc c
    end.
Proof.
  revert cells acc. induction cols as [|col cols IH]; intros [|cell cells] acc;
    try reflexivity.
  cbn [combine fold_left lastCell fst snd]. rewrite IH.
  destruct (lastCell c cols cells); [reflexivity|].
  rewrite mapGet_mapSet. now destruct (col =? c).
Qed.

Lemma lastCell_absent (c : string) (cols : list string) (cells : list Cell) :
  ~ List.In c cols -> lastCell c cols cells = None.
Proof.
  revert cells. induction cols as [|col cols IH]; intros [|cell cells] H; try reflexivity.
  cbn [lastCell]. rewrite IH by (intros Hin; apply H; now right).
  replace (col =? c) with false; [reflexivity|].
  symmetry. apply String.eqb_neq. intros ->. apply H. now left.
Qed.

(** X10. In the row map Find builds from a scanned row, a column name
    gives the value scanned under the last column of that name, a byte
    array as a string, and nil when no column has the name; with distinct
    column names each column gives its own cell. *)
Theorem row_lookup (cols : list string) (cells : list Cell) (c : string) :
  mapGet (pgsql.rowMapOf cols cells) c
  = match lastCell c cols cells with
    | Some cell => cellValue cell
    | None => VNil
    end
  /\ (NoDup cols ->
      forall i cell,
        nth_error cols i = Some c -> nth_error cells i = Some cell ->
        mapGet (pgsql.rowMapOf cols cells) c = cellValue cell).
Proof.
  assert (H : mapGet (pgsql.rowMapOf cols cells) c
              = match lastCell c cols cells with
                | Some cell => cellValue cell
                | None => VNil
                end) by apply rowMapOf_loop.
  split; [exact H|]. intros Hnd i cell Hc Hcell. rewrite H.
  clear H. revert cells i Hc Hcell.
  induction Hnd as [|col cols Hnotin Hnd IH]; intros cells i Hc Hcell.
  - now destruct i.
  - destruct cells as [|cell0 cells]; [now destruct i|].
    destruct i as [|i]; cbn [nth_error] in Hc, Hcell; cbn [lastCell].
    + injection Hc as ->. injection Hcell as ->.
      rewrite (@lastCell_absent _ _ cells Hnotin). now rewrite String.eqb_refl.
    + specialize (IH cells i Hc Hcell).
      destruct (lastCell c cols cells); [exact IH|].
      apply nth_error_In in Hc.
      destruct (String.eqb_spec col c) as [->|]; [contradiction|].
      exact IH.
Qed.

Lemma row_lookup_witness :
  mapGet (pgsql.rowMapOf ["id"; "etag"; "name"]
                         [CBytes "u1"; CBytes "e1"; CValue (VInt 7)]) "etag"
  = VString "e1".
Proof.
  exact (proj2 (row_lookup ["id"; "etag"; "name"]
                           [CBytes "u1"; CBytes "e1"; CValue (VInt 7)] "etag")
               ltac:(repeat constructor; simpl; intuition discriminate)
               1%nat (CBytes "e1") eq_refl eq_refl).
Defined.



Lemma newSQLItem_loop_lookup (l acc : Map) (key : string) :
  NoDup (map fst l) ->
  mapGet (fold_left (fun p (kv : string * Value) =>
                       let (k, v) := kv in
                       if negb (k =? "id") then mapSet k v p else p)
                    l acc) key
  = if (key =? "id") then mapGet acc key
    else if hasKey key l then mapGet l key else mapGet acc key.
Proof.
  revert acc. induction l as [|[k0 v0] l IH]; intros acc Hnd.
  - cbn. now destruct (key =? "id").
  - cbn [map fst] in Hnd. apply NoDup_cons_iff in Hnd. destruct Hnd as [Hnotin Hnd].
    cbn [fold_left]. rewrite IH by exact Hnd.
    unfold hasKey. cbn [existsb mapGet fst]. fold (hasKey key l).
    destruct (String.eqb_spec key "id") as [Hk|Hk].
    + subst key.
      destruct (String.eqb_spec k0 "id") as [Hk0|Hk0]; cbn [negb]; [reflexivity|].
      rewrite mapGet_mapSet.
      now replace (k0 =? "id") with false by (symmetry; now apply String.eqb_neq).
    + destruct (hasKey key l) eqn:Hl.
      * apply hasKey_In in Hl.
        destruct (String.eqb_spec k0 key) as [He|He]; [subst k0; contradiction|].
        now rewrite orb_true_r.
      * rewrite orb_false_r.
        destruct (String.eqb_spec k0 "id") as [Hk0|Hk0]; cbn [negb].
        -- subst k0.
           now replace ("id" =? key) with false
             by (symmetry; apply String.eqb_neq; congruence).
        -- rewrite mapGet_mapSet. now destruct (k0 =? key).
Qed.

(** X12. For a payload with distinct keys, the payload of the sqlItem
    newSQLItem makes gives for every key but id the value of the item's
    payload, and nil for id. *)
Theorem newSQLItem_lookup (i : resource.Item) (k : string) :
  NoDup (map fst (resource.Payload i)) ->
  mapGet (pgsql2.sPayload (pgsql2.newSQLItem i)) k
  = if (k =? "id") then VNil else mapGet (resource.Payload i) k.
Proof.
  intros Hnd. unfold pgsql2.newSQLItem. cbn [pgsql2.sPayload].
  rewrite (@newSQLItem_loop_lookup _ [] k Hnd). cbn [mapGet].
  destruct (k =? "id"); [reflexivity|].
  destruct (hasKey k (resource.Payload i)) eqn:H; [reflexivity|].
  now rewrite (@mapGet_absent _ _ H).
Qed.

Lemma newSQLItem_lookup_witness :
  mapGet (pgsql2.sPayload (pgsql2.newSQLItem itemWithId)) "name" = VString "bob"
  /\ mapGet (pgsql2.sPayload (pgsql2.newSQLItem itemWithId)) "id" = VNil.
Proof.
  split.
  - exact (newSQLItem_lookup itemWithId "name"
             ltac:(repeat constructor; simpl; intuition discriminate)).
  - exact (newSQLItem_lookup itemWithId "id"
             ltac:(repeat constructor; simpl; intuition discriminate)).
Defined.





(** *** The calls the operations make *)

(** X14. Whatever the database answers (short of a panic), Update of
    pgsql.go makes one of four runs: Begin fails and nothing else is
    called; the etag check fails and it rolls back without sending a
    statement; the stored etag is the original's and the UPDATE of
    getUpdate, sent on the session, fails and it rolls back; or the UPDATE
    goes through and it commits and returns nil, whatever Commit answers. *)
Theorem update_calls (a : Answers) (now : Clock) (h : Handler)
        (item original : resource.Item) :
  let upd := updateStatement now h item original in
  let sel := selectEtag h (resource.ID original) in
  let tr := pgsql.Update (driver := recording a) now h item original [] in
  snd tr <> Panic ->
  (exists e, ansBegin a [] = Some e /\ tr = ([CallBegin], Err e))
  \/ (exists e, tr = ([CallBegin; sel; CallRollback], Err e))
  \/ (ansRowString a [CallBegin] Session
                   ("SELECT etag FROM " ++ tableName h ++ " WHERE id='"
                      ++ fmtV (resource.ID original) ++ "'") []
      = Ok (resource.ETag original)
      /\ ((exists e, tr = ([CallBegin; sel; CallExec Session upd; CallRollback], Err e))
          \/ tr = ([CallBegin; sel; CallExec Session upd; CallCommit], Ok tt))).
Proof.
  intros upd sel tr. subst tr. unfold pgsql.Update, pgsql.compareEtags.
  rewrite getUpdate_text. fold (updateStatement now h item original). fold upd.
  cbn [Begin Commit Rollback Exec QueryRowScanString recording app].
  destruct (ansBegin a []) as [e|]; [intros _; left; now exists e|].
  fold sel.
  destruct (ansRowString a [CallBegin] Session _ []) as [etag| |] eqn:Eq;
    cbn [snd]; [ | intros _; right; left; now eexists | congruence ].
  unfold neqIface. destruct (String.eqb_spec etag (resource.ETag original)) as [->|Hne];
    cbn [negb snd]; [ | intros _; right; left; now eexists ].
  destruct (ansExec a _ Session upd) as [ra| |]; cbn [snd];
    [ | intros _; right; right; split; [reflexivity | left; now eexists] | congruence ].
  intros _. right. right. split; [reflexivity|]. right. reflexivity.
Qed.

Lemma update_calls_witness :
  pgsql.Update (driver := recording agreeable) noon {| tableName := "users" |}
               forgedItem storedItem []
  = ([CallBegin;
      selectEtag {| tableName := "users" |} (VString "u1");
      CallExec Session (updateStatement noon {| tableName := "users" |}
                                        forgedItem storedItem);
      CallCommit], Ok tt).
Proof.
  destruct (update_calls agreeable noon {| tableName := "users" |} forgedItem storedItem
                         ltac:(discriminate))
    as [(e & H & _) | [(e & H) | (_ & [(e & H) | H])]];
    try discriminate H.
  exact H.
Defined.

(** X15. Whatever the database answers (short of a panic), Delete of
    pgsql.go makes one of five runs: Begin fails; the etag check fails and
    it rolls back without preparing a statement; the stored etag is the
    item's and Prepare fails, or the prepared DELETE fails, and it rolls
    back; or the DELETE goes through and it commits and returns nil,
    whatever Commit answers. *)
Theorem delete_calls (a : Answers) (h : Handler) (item : resource.Item) :
  let del := deleteStatement h item in
  let sel := selectEtag h (resource.ID item) in
  let tr := pgsql.Delete (driver := recording a) h item [] in
  snd tr <> Panic ->
  (exists e, ansBegin a [] = Some e /\ tr = ([CallBegin], Err e))
  \/ (exists e, tr = ([CallBegin; sel; CallRollback], Err e))
  \/ (ansRowString a [CallBegin] Session
                   ("SELECT etag FROM " ++ tableName h ++ " WHERE id='"
                      ++ fmtV (resource.ID item) ++ "'") []
      = Ok (resource.ETag item)
      /\ ((exists e, tr = ([CallBegin; sel; CallPrepare del; CallRollback], Err e))
          \/ (exists e, tr = ([CallBegin; sel; CallPrepare del; CallExec Session del;
                               CallRollback], Err e))
          \/ tr = ([CallBegin; sel; CallPrepare del; CallExec Session del; CallCommit],
                   Ok tt))).
Proof.
  intros del sel tr. subst tr. unfold pgsql.Delete, pgsql.compareEtags.
  fold (deleteStatement h item). fold del.
  cbn [Begin Commit Rollback Exec Prepare QueryRowScanString recording app].
  destruct (ansBegin a []) as [e|]; [intros _; left; now exists e|].
  fold sel.
  destruct (ansRowString a [CallBegin] Session _ []) as [etag| |] eqn:Eq;
    cbn [snd]; [ | intros _; right; left; now eexists | congruence ].
  unfold neqIface. destruct (String.eqb_spec etag (resource.ETag item)) as [->|Hne];
    cbn [negb snd]; [ | intros _; right; left; now eexists ].
  destruct (ansPrepare a _ del) as [e|]; cbn [snd];
    [ intros _; right; right; split; [reflexivity | left; now eexists] | ].
  destruct (ansExec a _ Session del) as [ra| |]; cbn [snd];
    [ | intros _; right; right; split; [reflexivity | right; left; now eexists]
      | congruence ].
  intros _. right. right. split; [reflexivity|]. right. right. reflexivity.
Qed.

Lemma delete_calls_witness :
  pgsql.Delete (driver := recording agreeable) {| tableName := "users" |} storedItem []
  = ([CallBegin;
      selectEtag {| tableName := "users" |} (VString "u1");
      CallPrepare "DELETE FROM users WHERE id = 'u1'";
      CallExec Session "DELETE FROM users WHERE id = 'u1'";
      CallCommit], Ok tt).
Proof.
  destruct (delete_calls agreeable {| tableName := "users" |} storedItem
                         ltac:(discriminate))
    as [(e & H & _) | [(e & H) | (_ & [(e & H) | [(e & H) | H]])]];
    try discriminate H.
  exact H.
Defined.

Lemma insertLoop_calls (a : Answers) (now : nat -> Clock) (h : Handler)
      (items : list resource.Item) :
  forall (n : nat) (t0 : list Call),
    let stmts := insertStatements now h n items in
    let tr := pgsql.insertLoop (driver := recording a) now h n items t0 in
    snd tr <> Panic ->
    tr = ((t0 ++ map (CallExec Session) stmts)%list, Ok tt)
    \/ exists e k s,
        nth_error stmts k = Some s
        /\ ansExec a (t0 ++ map (CallExec Session) (firstn k stmts))%list Session s = Err e
        /\ tr = ((t0 ++ map (CallExec Session) (firstn (S k) stmts)
                     ++ [CallRollback])%list, Err e).
Proof.
  induction items as [|i items IH]; intros n t0; cbn zeta.
  - intros _. left. cbn [pgsql.insertLoop insertStatements map]. now rewrite app_nil_r.
  - cbn [pgsql.insertLoop insertStatements]. rewrite getInsert_text.
    set (s := insertText _ _ _). cbn [Exec Rollback recording].
    destruct (ansExec a t0 Session s) as [ra|e| ] eqn:Ex; cbn [snd].
    + intros Hp. specialize (IH (S n) (t0 ++ [CallExec Session s])%list Hp).
      cbn zeta in IH. destruct IH as [-> | (e & k & s' & Hk & Hx & ->)].
      * left. cbn [map]. now rewrite <- app_assoc.
      * right. exists e, (S k), s'. cbn [nth_error firstn map].
        rewrite <- !app_assoc in *. cbn [app] in *. now repeat split.
    + intros _. right. exists e, 0%nat, s. cbn [nth_error firstn map].
      rewrite app_nil_r, <- app_assoc. now repeat split.
    + congruence.
Qed.

(** X16. Whatever the database answers (short of a panic), Insert of
    pgsql.go sends the INSERT statements of the items on the session in
    the order of the items. It stops at the first one the database
    refuses, rolls back and returns the database's error; after the last
    one it commits and returns nil, whatever Commit answers. *)
Theorem insert_calls (a : Answers) (now : nat -> Clock) (h : Handler)
        (items : list resource.Item) :
  let stmts := insertStatements now h 0 items in
  let tr := pgsql.Insert (driver := recording a) now h items [] in
  snd tr <> Panic ->
  (exists e, ansBegin a [] = Some e /\ tr = ([CallBegin], Err e))
  \/ tr = (CallBegin :: map (CallExec Session) stmts ++ [CallCommit], Ok tt)%list
  \/ exists e k s,
      nth_error stmts k = Some s
      /\ ansExec a (CallBegin :: map (CallExec Session) (firstn k stmts)) Session s = Err e
      /\ tr = (CallBegin :: map (CallExec Session) (firstn (S k) stmts)
                 ++ [CallRollback], Err e)%list.
Proof.
  intros stmts tr. subst tr. unfold pgsql.Insert. cbn [Begin Commit recording app].
  destruct (ansBegin a []) as [e|]; [intros _; left; now exists e|].
  pose proof (insertLoop_calls a now h items 0%nat [CallBegin]) as H. cbn zeta in H.
  fold stmts in H.
  destruct (pgsql.insertLoop now h 0 items [CallBegin]) as [t r].
  cbn [snd app] in H.
  destruct r as [u|e|]; cbn [snd]; intros Hp.
  - destruct (H ltac:(discriminate)) as [E | (e & k & s & _ & _ & E)];
      [|discriminate E].
    injection E as ->. right. left. reflexivity.
  - destruct (H ltac:(discriminate)) as [E | (e' & k & s & Hk & Hx & E)];
      [discriminate E|].
    injection E as -> ->. right. right. exists e', k, s. now repeat split.
  - now contradiction Hp.
Qed.

Lemma insert_calls_witness :
  exists e,
    pgsql.Insert (driver := recording secondFails) (fun _ => noon)
                 {| tableName := "users" |} [itemWithId; forgedItem] []
    = ([CallBegin;
        CallExec Session "INSERT INTO users(etag,id,name) VALUES('e1','u1','bob');";
        CallExec Session
                 ("INSERT INTO users(etag,created,name,updated) "
                    ++ "VALUES('e2','2018-02-27T12:00:00Z','bob','2018-02-27T12:00:00Z');");
        CallRollback], Err e).
Proof.
  destruct (insert_calls secondFails (fun _ => noon) {| tableName := "users" |}
                         [itemWithId; forgedItem] ltac:(discriminate))
    as [(e & H & _) | [H | (e & k & s & _ & _ & H)]];
    try discriminate H.
  exists e. cbv in H. injection H as _ <-. reflexivity.
Defined.

Lemma repeat_snoc {A : Type} (x : A) (n : nat) :
  (repeat x n ++ [x])%list = repeat x (S n).
Proof. induction n as [|n IH]; cbn; [reflexivity | now rewrite IH]. Qed.

Lemma insertItems_calls (a : Answers) (h : Handler) (items : list pgsql2.sqlItem) :
  forall t0 : list Call,
    let stmts := map (returningStatement h) items in
    let tr := pgsql2.insertItems (driver := recording a) h items t0 in
    snd tr <> Panic ->
    tr = ((t0 ++ flat_map committed stmts ++ repeat CallClose (List.length items))%list,
          Ok tt)
    \/ exists e k s tail m,
        nth_error stmts k = Some s
        /\ tr = ((t0 ++ flat_map committed (firstn k stmts) ++ tail
                     ++ repeat CallClose m)%list, Err e)
        /\ ((tail = [CallBegin] /\ m = k)
            \/ (tail = [CallBegin; CallQueryRowInt Tx s []; CallRollback] /\ m = S k)
            \/ (tail = committed s /\ m = S k)).
Proof.
  induction items as [|i items IH]; intros t0; cbn zeta.
  - intros _. left. cbn. now rewrite app_nil_r.
  - cbn [pgsql2.insertItems map]. cbn [Begin recording].
    set (s := returningStatement h i).
    destruct (ansBegin a t0) as [e|].
    + intros _. right. exists e, 0%nat, s, [CallBegin], 0%nat.
      cbn [nth_error firstn flat_map repeat app]. repeat split. now left.
    + rewrite insertStatement_text. fold (returningStatement h i). fold s.
      cbn [QueryRowScanInt Commit Rollback Close recording].
      destruct (ansRowInt a (t0 ++ [CallBegin]) Tx s []) as [id|err| ]; cbn [snd].
      * destruct (ansCommit a _) as [e|].
        -- intros _. right. exists e, 0%nat, s, (committed s), 1%nat.
           cbn [nth_error firstn flat_map repeat app]. unfold committed at 1.
           repeat (rewrite <- app_assoc; cbn [app]).
           split; [reflexivity|]. split; [reflexivity|]. now right; right.
        -- specialize (IH (((t0 ++ [CallBegin]) ++ [CallQueryRowInt Tx s []])
                               ++ [CallCommit])%list).
           cbn zeta in IH.
           destruct (pgsql2.insertItems h items _) as [t r]. cbn [snd] in *.
           intros Hp. destruct (IH Hp) as [E | (e & k & s' & tail & m & Hk & E & Hc)];
             injection E as -> ->.
           ++ left. cbn [flat_map List.length]. unfold committed at 1.
              rewrite <- repeat_snoc. repeat (rewrite <- app_assoc; cbn [app]).
              reflexivity.
           ++ right. exists e, (S k), s', tail, (S m).
              cbn [nth_error firstn flat_map]. unfold committed at 1.
              rewrite <- repeat_snoc. repeat (rewrite <- app_assoc; cbn [app]).
              split; [exact Hk|]. split; [reflexivity|].
              destruct Hc as [[-> ->] | [[-> ->] | [-> ->]]]; auto.
      * intros _. right.
        exists (if Contains (Sprintln err)
                            "pq: duplicate key value violates unique constraint"
                then ErrConflict else err),
          0%nat, s, [CallBegin; CallQueryRowInt Tx s []; CallRollback], 1%nat.
        cbn [nth_error firstn flat_map repeat app].
        destruct (Contains _ _); repeat (rewrite <- app_assoc; cbn [app]);
          (split; [reflexivity|]; split; [reflexivity|]; now right; left).
      * congruence.
Qed.

(** X17. Insert of the revision with insertItems runs every item in a
    transaction of its own, on which it sends the INSERT ... RETURNING id
    of the item. When item k fails (Begin, the statement or Commit), the k
    items before it have been committed and stay so, and no later item is
    tried. Every item begun defers a Close of the session, and all of them
    run at the end. When every item is committed, Insert returns
    ctx.Err(). *)
Theorem insert_per_item (a : Answers) (ctxErr : option error) (h : Handler)
        (items : list resource.Item) :
  let stmts := map (fun i => returningStatement h (pgsql2.newSQLItem i)) items in
  let tr := pgsql2.Insert (driver := recording a) ctxErr h items [] in
  snd tr <> Panic ->
  tr = ((flat_map committed stmts ++ repeat CallClose (List.length items))%list,
        match ctxErr with Some e => Err e | None => Ok tt end)
  \/ exists e k s tail m,
      nth_error stmts k = Some s
      /\ tr = ((flat_map committed (firstn k stmts) ++ tail ++ repeat CallClose m)%list,
               Err e)
      /\ ((tail = [CallBegin] /\ m = k)
          \/ (tail = [CallBegin; CallQueryRowInt Tx s []; CallRollback] /\ m = S k)
          \/ (tail = committed s /\ m = S k)).
Proof.
  intros stmts tr. subst tr. unfold pgsql2.Insert.
  pose proof (insertItems_calls a h (map pgsql2.newSQLItem items) []) as H.
  cbn zeta in H. rewrite map_map, length_map in H. fold stmts in H. cbn [app] in H.
  destruct (pgsql2.insertItems h (map pgsql2.newSQLItem items) []) as [t r].
  cbn [snd] in H.
  destruct r as [u|e|].
  - destruct (H ltac:(discriminate)) as [E | (e & k & s & tail & m & _ & E & _)];
      [|discriminate E].
    injection E as -> ->. intros _. left. now destruct ctxErr.
  - intros _.
    destruct (H ltac:(discriminate)) as [E | (e' & k & s & tail & m & Hk & E & Hc)];
      [discriminate E|].
    injection E as -> ->. right. exists e', k, s, tail, m. now repeat split.
  - intros Hp. now contradiction Hp.
Qed.

Lemma insert_per_item_witness :
  pgsql2.Insert (driver := recording secondFails) None {| tableName := "users" |}
                [storedItem; itemWithId] []
  = ([CallBegin;
      CallQueryRowInt Tx "INSERT INTO users(etag)VALUES('e1') RETURNING id" [];
      CallCommit;
      CallBegin;
      CallQueryRowInt Tx "INSERT INTO users(etag, name)VALUES('e1', 'bob') RETURNING id" [];
      CallRollback;
      CallClose; CallClose], Err ErrConflict).
Proof.
  destruct (insert_per_item secondFails None {| tableName := "users" |}
                            [storedItem; itemWithId] ltac:(discriminate))
    as [H | (e & k & s & tail & m & _ & H & _)];
    [discriminate H | reflexivity].
Defined.

(** *** Further statements *)



Lemma plain_likePattern (s : string) : plain s = true -> likePattern s = s.
Proof.
  unfold likePattern. induction s as [|c s IH]; [reflexivity|].
  cbn [plain mapChars]. intros H.
  apply andb_prop in H. destruct H as [H Hs]. apply andb_prop in H. destruct H as [H1 H2].
  destruct (Ascii.eqb c "*"); [discriminate|].
  destruct (Ascii.eqb c "_"); [discriminate|].
  cbn [append]. now rewrite IH.
Qed.

(** X19. For a string value holding neither * nor _, an equality (a
    not-equal) comparison translates to LIKE (NOT LIKE) on the value
    between single quotes exactly as it is given, a quote or a backslash
    inside it included, followed by ESCAPE '\'. *)
Theorem plain_string_equality (Field s : string) :
  plain s = true ->
  translatePredicate [query.Equal Field (VString s)]
  = Ok (Field ++ " LIKE " ++ ("'" ++ s ++ "'") ++ " ESCAPE '\'")
  /\ translatePredicate [query.NotEqual Field (VString s)]
     = Ok (Field ++ " NOT LIKE " ++ ("'" ++ s ++ "'") ++ " ESCAPE '\'").
Proof.
  intros H. rewrite !translatePredicate_single.
  rewrite translateExpression_Equal_string, translateExpression_NotEqual_string.
  now rewrite !Replace_likePattern, !likePattern_quoted, (plain_likePattern s H).
Qed.

Lemma plain_string_equality_witness :
  translatePredicate [query.Equal "name" (VString "o'neil")]
  = Ok "name LIKE 'o'neil' ESCAPE '\'"
  /\ translatePredicate [query.NotEqual "name" (VString "o'neil")]
     = Ok "name NOT LIKE 'o'neil' ESCAPE '\'".
Proof.
  exact (@plain_string_equality "name" "o'neil" eq_refl).
Defined.
